(** * Order lifecycle, push channel and client cache of nvs-antt

    A shallow embedding of
    - [server/websocket.ts]       (connection registry, heartbeat, broadcast),
    - [temp_update_mutation_new]  (the execution-type mutation of the
                                   operation dialog),
    - the sales page component    (query construction, cache handling,
                                   action gates, pagination state),
    followed by the properties established about them. *)

From Stdlib Require Import ZArith Lia Ascii String.
From stdpp Require Import base option list gmap strings pretty sorting.

Open Scope string_scope.
Open Scope list_scope.

(** ** JSON values and [JSON.stringify] *)

Module Json.

#[local] Unset Elimination Schemes.
Inductive json : Type :=
| JNull
| JBool (b : bool)
| JNum (n : Z)
| JStr (s : string)
| JArr (items : list json)
| JObj (fields : list (string * json)).
#[local] Set Elimination Schemes.

(** The double-quote and backslash characters. *)
Definition dq : string := String "034"%char EmptyString.
Definition bs : string := String "092"%char EmptyString.

(** *** Numbers *)

(** A number of the model is an integer [n].  It stands for the Number
    nearest to [n]: the integer of 53 significant bits nearest to it,
    the even one of two that are equally near, which is [n] itself up
    to 2^53; from 2^1024 on that Number is an infinity. *)
Definition nearestNumber (m : Z) : Z :=
  let bits := (Z.log2 m + 1)%Z in
  if (bits <=? 53)%Z then m
  else
    let shift := (bits - 53)%Z in
    let q := Z.shiftr m shift in
    let r := Z.land m (Z.ones shift) in
    let half := Z.shiftl 1 (shift - 1) in
    let q' := if (half <? r)%Z || ((r =? half)%Z && Z.odd q) then (q + 1)%Z else q in
    Z.shiftl q' shift.

Definition infinite (x : Z) : bool := (2 ^ 1024 <=? x)%Z.

(** The decimal with [k] significant digits that [Number::toString]
    would write for the positive Number [x] of [size] digits, if one
    reads back as [x]: of the two candidates around [x] the nearer one,
    the even one when they are equally near. *)
Definition decimalOf (x size k : Z) : option Z :=
  let p := (10 ^ (size - k))%Z in
  let lo := (x / p * p)%Z in
  let hi := (lo + p)%Z in
  let okLo := (nearestNumber lo =? x)%Z in
  let okHi := (nearestNumber hi =? x)%Z in
  if okLo && okHi then
    Some (if (x - lo <? hi - x)%Z || ((x - lo =? hi - x)%Z && Z.even (lo / p))
          then lo else hi)
  else if okLo then Some lo
  else if okHi then Some hi
  else None.

(** The shortest such decimal: the least [k] is looked for, from [k]
    upwards. *)
Fixpoint shortestFrom (x size k : Z) (left : nat) : Z :=
  match left with
  | O => x
  | S left' =>
      match decimalOf x size k with
      | Some v => v
      | None => shortestFrom x size (k + 1) left'
      end
  end.

Definition shortestDecimal (x : Z) : Z :=
  let size := String.length (pretty x) in
  shortestFrom x (Z.of_nat size) 1 size.

(** A text of digits without the zeros at its end. *)
Fixpoint trimZeros (s : string) : string :=
  match s with
  | EmptyString => EmptyString
  | String c rest =>
      let rest' := trimZeros rest in
      if Ascii.eqb c "0" && String.eqb rest' "" then EmptyString else String c rest'
  end.

(** [Number::toString] for the Number of an integer: in full up to 21
    digits, with an exponent beyond. *)
Definition Number_toString (n : Z) : string :=
  if (n =? 0)%Z then "0"
  else
    let sign := if (n <? 0)%Z then "-" else "" in
    let x := nearestNumber (Z.abs n) in
    if infinite x then sign +:+ "Infinity"
    else
      let all := pretty (shortestDecimal x) in
      let size := String.length all in
      if (size <=? 21)%nat then sign +:+ all
      else
        let exponent := "e+" +:+ pretty (size - 1)%nat in
        match trimZeros all with
        | EmptyString => sign +:+ all
        | String d EmptyString => sign +:+ String d exponent
        | String d more => sign +:+ String d ("." +:+ more +:+ exponent)
        end.

(** *** Texts *)

(** A text of the model is the UTF-8 encoding of a string.  The
    escape of one character by [JSON.stringify]: the quote, the
    backslash and the control characters are escaped, the latter by
    their short form where there is one and as [\u00XX] otherwise. *)
Definition hexDigit (n : nat) : ascii :=
  nth n ["0"; "1"; "2"; "3"; "4"; "5"; "6"; "7"; "8"; "9";
         "a"; "b"; "c"; "d"; "e"; "f"]%char "0"%char.

Definition escapeChar (c : ascii) : string :=
  let code := nat_of_ascii c in
  if Ascii.eqb c "034"%char then bs +:+ dq
  else if Ascii.eqb c "092"%char then bs +:+ bs
  else if (code =? 8)%nat then bs +:+ "b"
  else if (code =? 9)%nat then bs +:+ "t"
  else if (code =? 10)%nat then bs +:+ "n"
  else if (code =? 12)%nat then bs +:+ "f"
  else if (code =? 13)%nat then bs +:+ "r"
  else if (code <? 32)%nat
       then bs +:+ "u00" +:+ String (hexDigit (code / 16))
                               (String (hexDigit (code mod 16)) EmptyString)
  else String c EmptyString.

Fixpoint escape (s : string) : string :=
  match s with
  | EmptyString => EmptyString
  | String c rest => escapeChar c +:+ escape rest
  end.

Definition quoted (s : string) : string := dq +:+ escape s +:+ dq.

(** [JSON.stringify]; the fields of an object are listed in the order
    in which the object enumerates them.  An infinity is written as
    [null]. *)
Fixpoint stringify (j : json) : string :=
  match j with
  | JNull => "null"
  | JBool true => "true"
  | JBool false => "false"
  | JNum n => if infinite (nearestNumber (Z.abs n)) then "null" else Number_toString n
  | JStr s => quoted s
  | JArr items =>
      "[" +:+
      (fix items_str (l : list json) : string :=
         match l with
         | [] => ""
         | x :: rest =>
             match rest with
             | [] => stringify x
             | _ :: _ => stringify x +:+ "," +:+ items_str rest
             end
         end) items
      +:+ "]"
  | JObj fields =>
      "{" +:+
      (fix fields_str (l : list (string * json)) : string :=
         match l with
         | [] => ""
         | (k, v) :: rest =>
             match rest with
             | [] => quoted k +:+ ":" +:+ stringify v
             | _ :: _ => quoted k +:+ ":" +:+ stringify v +:+ "," +:+ fields_str rest
             end
         end) fields
      +:+ "}"
  end.

(** The text of a value inside a template literal. *)
Fixpoint toText (j : json) : string :=
  match j with
  | JNull => "null"
  | JBool true => "true"
  | JBool false => "false"
  | JNum n => pretty n
  | JStr s => s
  | JArr items =>
      (fix join (l : list json) : string :=
         match l with
         | [] => ""
         | x :: rest =>
             let text := match x with JNull => "" | _ => toText x end in
             match rest with
             | [] => text
             | _ :: _ => text +:+ "," +:+ join rest
             end
         end) items
  | JObj _ => "[object Object]"
  end.

(** The text of [${v}] for a member that may be [undefined]. *)
Definition interpolate (v : option json) : string :=
  match v with
  | None => "undefined"
  | Some j => toText j
  end.

(** Truthiness of a value. *)
Definition truthy (j : json) : bool :=
  match j with
  | JNull => false
  | JBool b => b
  | JNum n => negb (n =? 0)%Z
  | JStr s => negb (String.eqb s "")
  | JArr _ | JObj _ => true
  end.

(** Property access [v.key] on an object (which holds a key once). *)
Fixpoint obj_get (key : string) (fields : list (string * json)) : option json :=
  match fields with
  | [] => None
  | (k, v) :: rest => if String.eqb k key then Some v else obj_get key rest
  end.

End Json.

(** ** server/websocket.ts *)

Module Websocket.
Import Json.

(** [WSEventType]. *)
Inductive WSEventType : Type := sales_update | user_update | ping | pong.

Definition WSEventType_name (t : WSEventType) : string :=
  match t with
  | sales_update => "sales_update"
  | user_update => "user_update"
  | ping => "ping"
  | pong => "pong"
  end.

(** [WSEvent]: [payload] and [timestamp] are optional. *)
Record WSEvent : Type := mkWSEvent {
  type : WSEventType;
  payload : option json;
  timestamp : option Z
}.

(** The object literal of an event, keys in the order the source writes
    them; absent optional members are left out, as [JSON.stringify]
    does for [undefined]. *)
Definition WSEvent_json (e : WSEvent) : json :=
  JObj ([("type", JStr (WSEventType_name (type e)))]
        ++ match payload e with Some p => [("payload", p)] | None => [] end
        ++ match timestamp e with Some t => [("timestamp", JNum t)] | None => [] end).

(** [WebSocket.readyState]. *)
Inductive ReadyState : Type := CONNECTING | OPEN | CLOSING | CLOSED.

Global Instance ReadyState_eq_dec : EqDecision ReadyState.
Proof. solve_decision. Defined.

(** One socket object.  [sendThrows] is the environment's choice of
    whether a call of [send] on it raises; [sent] is what was written
    to it so far, oldest first. *)
Record WebSocket : Type := mkWebSocket {
  readyState : ReadyState;
  sendThrows : bool;
  sent : list string
}.

Inductive LogEntry : Type :=
| LogInfo (text : string)
| LogError (context : string).

(** The module state: the socket objects (by reference), the global
    [connections] array of references, the sockets whose ping interval
    is running, and the log. *)
Record Server : Type := mkServer {
  sockets : gmap nat WebSocket;
  connections : list nat;
  intervals : gset nat;
  logs : list LogEntry
}.

Definition set_sockets (f : gmap nat WebSocket → gmap nat WebSocket) (s : Server) : Server :=
  mkServer (f (sockets s)) (connections s) (intervals s) (logs s).
Definition set_connections (f : list nat → list nat) (s : Server) : Server :=
  mkServer (sockets s) (f (connections s)) (intervals s) (logs s).
Definition set_intervals (f : gset nat → gset nat) (s : Server) : Server :=
  mkServer (sockets s) (connections s) (f (intervals s)) (logs s).
Definition log (entry : LogEntry) (s : Server) : Server :=
  mkServer (sockets s) (connections s) (intervals s) (logs s ++ [entry]).

(** A statement either completes or raises; both carry the state reached. *)
Inductive Outcome : Type :=
| Done (s : Server)
| Threw (s : Server).

Definition state_of (o : Outcome) : Server :=
  match o with Done s => s | Threw s => s end.

Definition readyState_of (w : nat) (s : Server) : option ReadyState :=
  readyState <$> sockets s !! w.

Definition is_open (w : nat) (s : Server) : bool :=
  bool_decide (readyState_of w s = Some OPEN).

Definition sent_of (w : nat) (s : Server) : list string :=
  default [] (sent <$> sockets s !! w).

(** [ws.send(data)]: raises while connecting or when the environment
    makes it raise; writes on an open socket; is dropped otherwise. *)
Definition send (w : nat) (data : string) (s : Server) : Outcome :=
  match sockets s !! w with
  | None => Threw s
  | Some ws =>
      if sendThrows ws then Threw s
      else match readyState ws with
           | CONNECTING => Threw s
           | OPEN =>
               Done (set_sockets
                       <[w := mkWebSocket OPEN (sendThrows ws) (sent ws ++ [data])]> s)
           | CLOSING | CLOSED => Done s
           end
  end.

(** [ws.terminate()]: the socket leaves the open state at once; its
    close event is delivered later. *)
Definition terminate (w : nat) (s : Server) : Server :=
  match sockets s !! w with
  | None => s
  | Some ws =>
      match readyState ws with
      | CLOSED => s
      | _ => set_sockets <[w := mkWebSocket CLOSING (sendThrows ws) (sent ws)]> s
      end
  end.

Definition welcomeEvent : WSEvent :=
  mkWSEvent ping (Some (JObj [("message", JStr "Conectado ao servidor em tempo real")])) None.

Definition pongEvent (now : Z) : WSEvent :=
  mkWSEvent pong (Some (JObj [("message", JStr "Pong resposta ao ping")])) (Some now).

Definition periodicPingEvent (now : Z) : WSEvent :=
  mkWSEvent ping (Some (JObj [("message", JStr "Ping periódico do servidor")])) (Some now).

(** The interval of the liveness probe, in milliseconds. *)
Definition pingIntervalMs : Z := 15000.

(** [connections.indexOf(ws)] and [connections.splice(index, 1)]. *)
Fixpoint indexOf (w : nat) (l : list nat) : option nat :=
  match l with
  | [] => None
  | x :: rest => if decide (x = w) then Some 0 else S <$> indexOf w rest
  end.

Definition splice1 (index : nat) (l : list nat) : list nat :=
  take index l ++ drop (S index) l.

Section Handlers.

(** [JSON.parse] of the text of a message: [None] when it raises. *)
Variable JSON_parse : string → option json.

(** [wss.on('connection', ws => ...)]. *)
Definition onConnection (w : nat) (s : Server) : Outcome :=
  let s1 := log (LogInfo "Nova conexão WebSocket estabelecida") s in
  let s2 := set_connections (λ l, l ++ [w]) s1 in
  match send w (stringify (WSEvent_json welcomeEvent)) s2 with
  | Threw s3 => Threw s3
  | Done s3 => Done (set_intervals (λ i, {[w]} ∪ i) s3)
  end.

(** [event.type] of a parsed message: reading a member of [null]
    raises ([None]); a member that is absent, or any member of a value
    that is not an object, reads as [undefined] ([Some None]). *)
Definition event_type (v : json) : option (option json) :=
  match v with
  | JNull => None
  | JObj fields => Some (obj_get "type" fields)
  | _ => Some None
  end.

(** [event.type === 'ping']. *)
Definition is_ping (t : option json) : bool :=
  match t with
  | Some (JStr s) => String.eqb s "ping"
  | _ => false
  end.

(** [ws.on('message', message => ...)]. *)
Definition onMessage (w : nat) (message : string) (now : Z) (s : Server) : Server :=
  let caught s' := log (LogError "Erro ao processar mensagem") s' in
  match JSON_parse message with
  | None => caught s
  | Some v =>
      match event_type v with
      | None => caught s
      | Some t =>
          let s1 := log (LogInfo ("Mensagem recebida: " +:+ interpolate t)) s in
          if is_ping t then
            match send w (stringify (WSEvent_json (pongEvent now))) s1 with
            | Done s2 => s2
            | Threw s2 => caught s2
            end
          else s1
      end
  end.

(** The two [ws.on('close', ...)] handlers, in registration order. *)
Definition onClose (w : nat) (s : Server) : Server :=
  let s1 :=
    match indexOf w (connections s) with
    | Some index => set_connections (splice1 index) s
    | None => s
    end in
  let s2 := log (LogInfo "Conexão WebSocket fechada") s1 in
  set_intervals (λ i, i ∖ {[w]}) s2.

(** One firing of the ping interval of [ws]. *)
Definition onInterval (w : nat) (now : Z) (s : Server) : Server :=
  let s1 :=
    if is_open w s then
      match send w (stringify (WSEvent_json (periodicPingEvent now))) s with
      | Done s' => s'
      | Threw s' => terminate w (log (LogError "Erro ao enviar ping") s')
      end
    else s in
  if is_open w s1 then s1 else set_intervals (λ i, i ∖ {[w]}) s1.

End Handlers.

(** The interval registered at time [t0] with [setInterval(..., 15000)],
    on an ideal timer (the k-th firing is at [t0 + k * 15000]): its
    next [n] firings, for as long as it has not been cleared. *)
Fixpoint fireIntervals (w : nat) (t0 : Z) (n : nat) (s : Server) : Server :=
  match n with
  | O => s
  | S k =>
      if decide (w ∈ intervals s) then
        let now := (t0 + pingIntervalMs)%Z in
        fireIntervals w now k (onInterval w now s)
      else s
  end.

(** [connections.forEach(client => ...)] of [broadcastEvent]: a raising
    [send] ends the iteration. *)
Fixpoint broadcast_loop (message : string) (clients : list nat) (s : Server) : Outcome :=
  match clients with
  | [] => Done s
  | client :: rest =>
      if is_open client s then
        match send client message s with
        | Done s' => broadcast_loop message rest s'
        | Threw s' => Threw s'
        end
      else broadcast_loop message rest s
  end.

Definition broadcastEvent (event : WSEvent) (s : Server) : Outcome :=
  let message := stringify (WSEvent_json event) in
  let s1 := log (LogInfo ("Broadcast de evento: " +:+ WSEventType_name (type event))) s in
  broadcast_loop message (connections s1) s1.

Definition salesUpdateEvent (now : Z) : WSEvent :=
  mkWSEvent sales_update (Some (JObj [("timestamp", JNum now)])) None.

Definition notifySalesUpdate (now : Z) (s : Server) : Outcome :=
  broadcastEvent (salesUpdateEvent now) s.

(** What [n] deliveries of [message] do to a socket object. *)
Definition deliver (n : nat) (message : string) (ws : WebSocket) : WebSocket :=
  match readyState ws with
  | OPEN => mkWebSocket OPEN (sendThrows ws) (sent ws ++ replicate n message)
  | _ => ws
  end.


(** A stand-in for [JSON.parse] that knows exactly one text. *)
Definition parse_ping_only (text : string) : option json :=
  if String.eqb text (stringify (JObj [("type", JStr "ping")]))
  then Some (JObj [("type", JStr "ping")])
  else None.

(** A state used in the examples: sockets 1 and 3 open, socket 2 closing. *)
Definition example_server : Server :=
  mkServer
    {[ 1%nat := mkWebSocket OPEN false [];
       2%nat := mkWebSocket CLOSING false [];
       3%nat := mkWebSocket OPEN false [] ]}
    [1; 2; 3]%nat {[ 1%nat; 2%nat; 3%nat ]} [].


(** *** Runs of the server *)

(** The server together with the sockets that have their handlers: the
    connection handler registers the [message] handler, the [close]
    handlers and the interval of a socket after it has sent the welcome
    event, so a socket whose welcome [send] raised is in [connections]
    and has none of them. *)
Record Runtime : Type := mkRuntime {
  server : Server;
  listening : gset nat
}.

(** What happens to the server, one event at a time: a client
    connects on a new socket (whose [send] raises or not), a message
    arrives, a socket closes, an interval fires, an event is broadcast,
    or the transport of a socket changes its state.  A message or a
    close event of a socket without handlers runs no code. *)
Inductive Event : Type :=
| Connected (w : nat) (throws : bool)
| MessageReceived (w : nat) (message : string) (now : Z)
| Closed (w : nat)
| IntervalFired (w : nat) (now : Z)
| Broadcast (event : WSEvent)
| TransportChanged (w : nat) (state : ReadyState) (throws : bool).

Definition dispatch (parse : string → option json) (e : Event) (r : Runtime) : Runtime :=
  let s := server r in
  match e with
  | Connected w throws =>
      match sockets s !! w with
      | Some _ => r
      | None =>
          match onConnection w (set_sockets <[w := mkWebSocket OPEN throws []]> s) with
          | Done s' => mkRuntime s' ({[w]} ∪ listening r)
          | Threw s' => mkRuntime s' (listening r)
          end
      end
  | MessageReceived w message now =>
      if decide (w ∈ listening r)
      then mkRuntime (onMessage parse w message now s) (listening r)
      else r
  | Closed w =>
      if decide (w ∈ listening r) then mkRuntime (onClose w s) (listening r) else r
  | IntervalFired w now =>
      if decide (w ∈ intervals s) then mkRuntime (onInterval w now s) (listening r) else r
  | Broadcast event => mkRuntime (state_of (broadcastEvent event s)) (listening r)
  | TransportChanged w state throws =>
      match sockets s !! w with
      | Some ws => mkRuntime (set_sockets <[w := mkWebSocket state throws (sent ws)]> s)
                     (listening r)
      | None => r
      end
  end.

(** The server after a sequence of events, the first event first. *)
Definition runEvents (parse : string → option json) (events : list Event) (r : Runtime)
    : Runtime :=
  foldl (λ r' e, dispatch parse e r') r events.

Definition emptyServer : Server := mkServer ∅ [] ∅ [].

Definition emptyRuntime : Runtime := mkRuntime emptyServer ∅.

(** What every run keeps: a socket is registered once at most, an
    interval runs only for a registered socket that has its handlers,
    and what is registered or has handlers is a socket. *)
Definition registryInvariant (r : Runtime) : Prop :=
  NoDup (connections (server r)) ∧
  (∀ w, w ∈ intervals (server r) → w ∈ connections (server r) ∧ w ∈ listening r) ∧
  (∀ w, w ∈ connections (server r) ∨ w ∈ listening r →
        is_Some (sockets (server r) !! w)).

End Websocket.

(** ** temp_update_mutation_new: the execution-type mutation *)

Module ExecutionType.

(** What the dialog holds when the mutation runs.  Ids are numbers that
    may be missing ([undefined]/[null]). *)
Record Dialog : Type := mkDialog {
  saleId : option nat;
  selectedServiceTypeId : option nat;
  hasPrestadorParceiro : bool;
  selectedServiceProviderIds : list nat;
  saleServiceProviders : list nat
}.

(** [!id]: a missing id and the number 0 are both falsy. *)
Definition falsy_id (id : option nat) : bool :=
  match id with
  | None => true
  | Some O => true
  | Some (S _) => false
  end.

Definition id_value (id : option nat) : nat := default 0%nat id.

(** The answer to the [fetch] of [/api/sales/:id/update-execution-type]:
    the status flag and, for an error body, its [message] member.  (A
    [fetch] that gets no answer at all is outside the runs described
    here.) *)
Record Response : Type := mkResponse {
  ok : bool;
  message : option string
}.

(** What the environment does: the answer to the POST, and whether
    [updateServiceProvidersMutation.mutateAsync()] resolves ([None]) or
    rejects with an error text. *)
Record Env : Type := mkEnv {
  postResponse : Response;
  providersMutation : option string
}.

(** [a || b] on an optional text: the empty text is falsy. *)
Definition or_default (a : option string) (b : string) : string :=
  match a with
  | Some (String c rest) => String c rest
  | _ => b
  end.

(** The effects of a run, in order.  [PostUpdateExecutionType] records
    whether the server accepted the request. *)
Inductive Effect : Type :=
| PostUpdateExecutionType (sale serviceType : nat) (accepted : bool)
| SetSelectedServiceProviderIds (ids : list nat)
| UpdateServiceProviders (resolved : bool).

Inductive Result : Type :=
| Resolved
| Thrown (error : string).

Definition runProvidersMutation (env : Env) : list Effect * Result :=
  match providersMutation env with
  | None => ([UpdateServiceProviders true], Resolved)
  | Some error => ([UpdateServiceProviders false], Thrown error)
  end.

(** [mutationFn] of [updateExecutionTypeMutation]. *)
Definition mutationFn (d : Dialog) (env : Env) : list Effect * Result :=
  if falsy_id (saleId d) then ([], Thrown "ID da venda não fornecido")
  else if falsy_id (selectedServiceTypeId d) then
    ([], Thrown "É necessário selecionar um tipo de execução")
  else
    let response := postResponse env in
    let post := PostUpdateExecutionType (id_value (saleId d))
                  (id_value (selectedServiceTypeId d)) (ok response) in
    if negb (ok response) then
      ([post], Thrown (or_default (message response) "Erro ao atualizar tipo de execução"))
    else if hasPrestadorParceiro d then
      if (length (selectedServiceProviderIds d) =? 0)%nat then
        ([post], Thrown "É necessário selecionar pelo menos um prestador parceiro")
      else
        let '(effects, result) := runProvidersMutation env in
        (post :: effects, result)
    else if (0 <? length (saleServiceProviders d))%nat then
      let '(effects, result) := runProvidersMutation env in
      (post :: SetSelectedServiceProviderIds [] :: effects, result)
    else ([post], Resolved).

(** The service type the server holds for the order after a run: an
    accepted POST stores the one it carries. *)
Definition serviceType_after (effects : list Effect) (before : option nat) : option nat :=
  foldl (λ current e,
           match e with
           | PostUpdateExecutionType _ serviceType true => Some serviceType
           | _ => current
           end) before effects.




End ExecutionType.

(** ** The sales page component *)

(** [useAuth]: the signed-in user. *)
Module Auth.

Record User : Type := mkUser {
  id : nat;
  role : string
}.

(** [user?.role === r]; no user is signed in when [user] is [None]. *)
Definition role_is (user : option User) (r : string) : bool :=
  match user with
  | Some u => String.eqb (role u) r
  | None => false
  end.

End Auth.

(** TanStack Query, as far as the page uses it: query keys, the cache
    of fetched results with their invalidation flag, prefix matching of
    [invalidateQueries], and reading through the cache. *)
Module QueryClient.

Inductive KeyPart : Type :=
| KStr (s : string)
| KNum (n : Z)
| KUndefined.

Definition KeyPart_eqb (a b : KeyPart) : bool :=
  match a, b with
  | KStr x, KStr y => String.eqb x y
  | KNum x, KNum y => Z.eqb x y
  | KUndefined, KUndefined => true
  | _, _ => false
  end.

Definition QueryKey : Type := list KeyPart.

(** [partialMatchKey(a, b)] on arrays: every index of the filter key
    [b] holds the same part in the query key [a]. *)
Fixpoint partialMatchKey (a b : QueryKey) : bool :=
  match b with
  | [] => true
  | y :: b' =>
      match a with
      | [] => false
      | x :: a' => KeyPart_eqb x y && partialMatchKey a' b'
      end
  end.

Fixpoint QueryKey_eqb (a b : QueryKey) : bool :=
  match a, b with
  | [], [] => true
  | x :: a', y :: b' => KeyPart_eqb x y && QueryKey_eqb a' b'
  | _, _ => false
  end.

Section Cache.
Context {D : Type}.

Record Query : Type := mkQuery {
  queryKey : QueryKey;
  data : D;
  dataUpdatedAt : Z;
  isInvalidated : bool
}.

Definition invalidate (q : Query) : Query :=
  mkQuery (queryKey q) (data q) (dataUpdatedAt q) true.

(** [queryClient.invalidateQueries({ queryKey })]. *)
Definition invalidateQueries (filterKey : QueryKey) (cache : list Query) : list Query :=
  map (λ q, if partialMatchKey (queryKey q) filterKey then invalidate q else q) cache.

Fixpoint find (key : QueryKey) (cache : list Query) : option Query :=
  match cache with
  | [] => None
  | q :: rest => if QueryKey_eqb (queryKey q) key then Some q else find key rest
  end.

Fixpoint store (q : Query) (cache : list Query) : list Query :=
  match cache with
  | [] => [q]
  | q' :: rest =>
      if QueryKey_eqb (queryKey q') (queryKey q) then q :: rest
      else q' :: store q rest
  end.

(** [isStaleByTime]: invalidated, or as old as [staleTime]. *)
Definition isStale (staleTime now : Z) (q : Query) : bool :=
  isInvalidated q || (staleTime <=? now - dataUpdatedAt q)%Z.

(** The result a query settles on when it is read at time [now]: a
    fresh entry is returned as it is; otherwise [queryFn] runs and its
    result replaces the entry.  The flag tells whether [queryFn] ran. *)
Definition read (staleTime now : Z) (key : QueryKey) (queryFn : D)
    (cache : list Query) : D * bool * list Query :=
  match find key cache with
  | Some q =>
      if isStale staleTime now q
      then (queryFn, true, store (mkQuery key queryFn now false) cache)
      else (data q, false, cache)
  | None => (queryFn, true, store (mkQuery key queryFn now false) cache)
  end.

End Cache.
Arguments Query : clear implicits.

End QueryClient.

Module SalesPage.
Import Json QueryClient.

(** [type Sale]. *)
Record Sale : Type := mkSale {
  id : nat;
  orderNumber : string;
  date : string;
  customerId : nat;
  paymentMethodId : nat;
  sellerId : nat;
  serviceTypeId : option nat;
  serviceProviderId : option nat;
  totalAmount : string;
  status : string;
  executionStatus : string;
  financialStatus : string;
  notes : option string;
  returnReason : option string;
  responsibleOperationalId : option nat;
  responsibleFinancialId : option nat;
  createdAt : string;
  updatedAt : string
}.

(** The body of a page of [/api/sales]. *)
Record SalesData : Type := mkSalesData {
  rows : list Sale;
  total : Z;
  pageNumber : Z;
  pageCount : Z
}.

Inductive SortField : Type :=
| by_orderNumber | by_date | by_customerName | by_sellerName | by_totalAmount | by_status.

Definition SortField_name (f : SortField) : string :=
  match f with
  | by_orderNumber => "orderNumber"
  | by_date => "date"
  | by_customerName => "customerName"
  | by_sellerName => "sellerName"
  | by_totalAmount => "totalAmount"
  | by_status => "status"
  end.

Inductive SortDirection : Type := asc | desc.

Definition SortDirection_name (d : SortDirection) : string :=
  match d with asc => "asc" | desc => "desc" end.

(** A [Date], by the two halves of its [toISOString()] text around the
    letter T. *)
Record Date : Type := mkDate {
  isoDay : string;
  isoClock : string
}.

Definition toISOString (d : Date) : string := isoDay d +:+ "T" +:+ isoClock d.

(** [DateRange] of the date picker. *)
Record DateRange : Type := mkDateRange {
  range_from : option Date;
  range_to : option Date
}.

(** The [useState] cells of the page that the queries and the handlers
    below read or write. *)
Record State : Type := mkState {
  searchTerm : string;
  sortField : SortField;
  sortDirection : SortDirection;
  deleteDialogOpen : bool;
  clearSalesDialogOpen : bool;
  statusFilter : string;
  dateRange : option DateRange;
  selectedSellerId : string;
  page : Z;
  limit : Z;
  totalPages : Z;
  totalRecords : Z
}.

Definition initialState : State :=
  mkState "" by_date desc false false "" None "all" 1 15 1 0.

Definition setPage (v : Z) (st : State) : State :=
  mkState (searchTerm st) (sortField st) (sortDirection st) (deleteDialogOpen st)
    (clearSalesDialogOpen st) (statusFilter st) (dateRange st) (selectedSellerId st)
    v (limit st) (totalPages st) (totalRecords st).
Definition setLimit (v : Z) (st : State) : State :=
  mkState (searchTerm st) (sortField st) (sortDirection st) (deleteDialogOpen st)
    (clearSalesDialogOpen st) (statusFilter st) (dateRange st) (selectedSellerId st)
    (page st) v (totalPages st) (totalRecords st).
Definition setSelectedSellerId (v : string) (st : State) : State :=
  mkState (searchTerm st) (sortField st) (sortDirection st) (deleteDialogOpen st)
    (clearSalesDialogOpen st) (statusFilter st) (dateRange st) v
    (page st) (limit st) (totalPages st) (totalRecords st).
Definition setDateRange (v : option DateRange) (st : State) : State :=
  mkState (searchTerm st) (sortField st) (sortDirection st) (deleteDialogOpen st)
    (clearSalesDialogOpen st) (statusFilter st) v (selectedSellerId st)
    (page st) (limit st) (totalPages st) (totalRecords st).
Definition setStatusFilter (v : string) (st : State) : State :=
  mkState (searchTerm st) (sortField st) (sortDirection st) (deleteDialogOpen st)
    (clearSalesDialogOpen st) v (dateRange st) (selectedSellerId st)
    (page st) (limit st) (totalPages st) (totalRecords st).
Definition setDeleteDialogOpen (v : bool) (st : State) : State :=
  mkState (searchTerm st) (sortField st) (sortDirection st) v
    (clearSalesDialogOpen st) (statusFilter st) (dateRange st) (selectedSellerId st)
    (page st) (limit st) (totalPages st) (totalRecords st).
Definition setClearSalesDialogOpen (v : bool) (st : State) : State :=
  mkState (searchTerm st) (sortField st) (sortDirection st) (deleteDialogOpen st)
    v (statusFilter st) (dateRange st) (selectedSellerId st)
    (page st) (limit st) (totalPages st) (totalRecords st).
Definition setTotals (pages records : Z) (st : State) : State :=
  mkState (searchTerm st) (sortField st) (sortDirection st) (deleteDialogOpen st)
    (clearSalesDialogOpen st) (statusFilter st) (dateRange st) (selectedSellerId st)
    (page st) (limit st) pages records.

Record Toast : Type := mkToast {
  title : string;
  description : string;
  variant : option string
}.

(** What a stored [cache_] item holds: the document that
    [saveToLocalCache] wrote, or a text that [JSON.parse] rejects. *)
Inductive Stored : Type :=
| Entry (data : json) (timestamp : Z)
| Unparseable.

(** The component with what it reaches: its state, the query cache of
    the order pages, [localStorage], and the toasts shown. *)
Record Component : Type := mkComponent {
  state : State;
  queryCache : list (Query SalesData);
  localStorage : gmap string Stored;
  toasts : list Toast
}.

Definition with_state (f : State → State) (c : Component) : Component :=
  mkComponent (f (state c)) (queryCache c) (localStorage c) (toasts c).
Definition with_queryCache (f : list (Query SalesData) → list (Query SalesData))
    (c : Component) : Component :=
  mkComponent (state c) (f (queryCache c)) (localStorage c) (toasts c).
Definition with_localStorage (f : gmap string Stored → gmap string Stored)
    (c : Component) : Component :=
  mkComponent (state c) (queryCache c) (f (localStorage c)) (toasts c).
Definition toast (t : Toast) (c : Component) : Component :=
  mkComponent (state c) (queryCache c) (localStorage c) (toasts c ++ [t]).

(** [queryClient.invalidateQueries({ queryKey: ["/api/sales"] })]. *)
Definition salesKey : QueryKey := [KStr "/api/sales"].

Definition invalidateSales (c : Component) : Component :=
  with_queryCache (invalidateQueries salesKey) c.


(** *** The paginated query *)

(** The [queryKey] of the page query. *)
Definition salesQueryKey (user : option Auth.User) (st : State) : QueryKey :=
  [ KStr "/api/sales";
    (if Auth.role_is user "vendedor"
     then match user with Some u => KNum (Z.of_nat (Auth.id u)) | None => KUndefined end
     else KStr "all");
    KNum (page st);
    KNum (limit st);
    KStr (statusFilter st);
    KStr (searchTerm st);
    KStr (SortField_name (sortField st));
    KStr (SortDirection_name (sortDirection st));
    match dateRange st ≫= range_from with
    | Some d => KStr (toISOString d) | None => KUndefined end;
    match dateRange st ≫= range_to with
    | Some d => KStr (toISOString d) | None => KUndefined end;
    KStr (selectedSellerId st) ].

Definition nonempty (s : string) : bool := negb (String.eqb s "").

(** The seller parameter of the request: a seller picked in the filter
    comes first; otherwise a [vendedor] sends the own id. *)
Definition sellerIdParam (user : option Auth.User) (st : State) : list (string * string) :=
  if nonempty (selectedSellerId st) && negb (String.eqb (selectedSellerId st) "all")
  then [("sellerId", selectedSellerId st)]
  else if Auth.role_is user "vendedor"
  then match user with
       | Some u => [("sellerId", pretty (Auth.id u))]
       | None => []
       end
  else [].

(** The [URLSearchParams] that [queryFn] appends, in order. *)
Definition salesQueryParams (user : option Auth.User) (st : State) : list (string * string) :=
  [("page", pretty (page st)); ("limit", pretty (limit st))]
  ++ [("sortField", SortField_name (sortField st))]
  ++ [("sortDirection", SortDirection_name (sortDirection st))]
  ++ (if nonempty (statusFilter st) then [("status", statusFilter st)] else [])
  ++ (if nonempty (searchTerm st) then [("searchTerm", searchTerm st)] else [])
  ++ match dateRange st ≫= range_from with
     | Some d => [("startDate", isoDay d)] | None => [] end
  ++ match dateRange st ≫= range_to with
     | Some d => [("endDate", isoDay d)] | None => [] end
  ++ sellerIdParam user st.

(** The export queries [fetchAllSales] / [fetchAllFilteredSales] put
    the seller restriction first and without regard to the filter. *)
Definition exportSellerIdParam (user : option Auth.User) : list (string * string) :=
  if Auth.role_is user "vendedor"
  then match user with
       | Some u => [("sellerId", pretty (Auth.id u))]
       | None => []
       end
  else [].

(** The answer of the server to a request: a success with its body, or
    an error with the [message] member of its body.  (A [fetch] that
    gets no answer at all is outside the runs described here.) *)
Inductive Response (B : Type) : Type :=
| RespOk (body : B)
| RespError (message : option string).
Arguments RespOk {B} body.
Arguments RespError {B} message.

Inductive Outcome (B : Type) : Type :=
| Success (value : B)
| Failure (error : string).
Arguments Success {B} value.
Arguments Failure {B} error.

(** [a || b] on an optional text: the empty text is falsy. *)
Definition or_default (a : option string) (b : string) : string :=
  match a with
  | Some (String ch rest) => String ch rest
  | _ => b
  end.

(** [staleTime] of the page query, in milliseconds. *)
Definition salesStaleTime : Z := 30000.

(** [queryFn] of the page query: one request, no use of the local
    cache; the totals of the page go into the state. *)
Definition salesQueryFn (response : Response SalesData) (c : Component)
    : Outcome SalesData * Component :=
  match response with
  | RespError _ => (Failure "Erro ao carregar vendas", c)
  | RespOk body => (Success body, with_state (setTotals (pageCount body) (total body)) c)
  end.

(** *** Filters and pagination *)

Definition handleSellerFilterChange (value : string) (c : Component) : Component :=
  invalidateSales (with_state (λ st, setPage 1 (setSelectedSellerId value st)) c).

Definition handleDateRangeChange (range : option DateRange) (c : Component) : Component :=
  invalidateSales (with_state (λ st, setPage 1 (setDateRange range st)) c).

Definition onPageChange (newPage : Z) (c : Component) : Component :=
  with_state (setPage newPage) c.

Definition onPageSizeChange (newSize : Z) (c : Component) : Component :=
  with_state (λ st, setPage 1 (setLimit newSize st)) c.


(** *** The local cache of reference data *)

(** [staleTime], [gcTime] and [localStorageCacheTime], in milliseconds. *)
Definition staleTime : Z := 5 * 60 * 1000.
Definition gcTime : Z := 30 * 60 * 1000.
Definition localStorageCacheTime : Z := 60 * 60 * 1000.

Definition cacheItem (key : string) : string := "cache_" +:+ key.

(** [getFromLocalCache(key)] at time [now]: the cached data, or [None]
    for [null]; an expired item is removed. *)
Definition getFromLocalCache (now : Z) (key : string) (ls : gmap string Stored)
    : option json * gmap string Stored :=
  match ls !! cacheItem key with
  | Some (Entry data timestamp) =>
      let isExpired := (localStorageCacheTime <? now - timestamp)%Z in
      if negb isExpired then (Some data, ls)
      else (None, delete (cacheItem key) ls)
  | Some Unparseable => (None, ls)
  | None => (None, ls)
  end.

(** [saveToLocalCache(key, data)] at time [now]; a raising [setItem]
    is caught and leaves the storage as it was. *)
Definition saveToLocalCache (now : Z) (setItemThrows : bool) (key : string) (data : json)
    (ls : gmap string Stored) : gmap string Stored :=
  if setItemThrows then ls else <[cacheItem key := Entry data now]> ls.

(** The five reference queries. *)
Inductive Reference : Type :=
| customers | users | paymentMethods | serviceTypes | serviceProviders.

Definition Reference_key (r : Reference) : string :=
  match r with
  | customers => "customers"
  | users => "users"
  | paymentMethods => "payment-methods"
  | serviceTypes => "service-types"
  | serviceProviders => "service-providers"
  end.

Definition Reference_error (r : Reference) : string :=
  match r with
  | customers => "Erro ao carregar clientes"
  | users => "Erro ao carregar usuários"
  | paymentMethods => "Erro ao carregar formas de pagamento"
  | serviceTypes => "Erro ao carregar tipos de serviço"
  | serviceProviders => "Erro ao carregar prestadores de serviço"
  end.

(** The clock and the storage behaviour seen by one run of a reference
    [queryFn]: the time of the cache lookup, the time of the save after
    the fetch, and whether [setItem] raises. *)
Record Browser : Type := mkBrowser {
  now : Z;
  savedAt : Z;
  setItemThrows : bool
}.

(** [queryFn] of a reference query.  The flag tells whether the
    network was used. *)
Definition referenceQueryFn (r : Reference) (env : Browser) (response : Response json)
    (ls : gmap string Stored) : Outcome json * bool * gmap string Stored :=
  let '(cachedData, ls1) := getFromLocalCache (now env) (Reference_key r) ls in
  let fetched :=
    match response with
    | RespError _ => (Failure (Reference_error r), true, ls1)
    | RespOk body =>
        (Success body, true,
         saveToLocalCache (savedAt env) (setItemThrows env) (Reference_key r) body ls1)
    end in
  match cachedData with
  | Some cached => if truthy cached then (Success cached, false, ls1) else fetched
  | None => fetched
  end.

(** *** Mutations *)

(** What a handler of a mutation leaves: the component it reached,
    and the error it raised, if it did. *)
Inductive Handled : Type :=
| Completed (c : Component)
| Raised (c : Component) (error : string).

(** [useMutation]: the value of [mutationFn] goes to [onSuccess], its
    error to [onError]; an error raised by [onSuccess] goes to
    [onError] as well. *)
Definition mutate {A R : Type} (mutationFn : A → Outcome R)
    (onSuccess : R → Component → Handled) (onError : string → Component → Component)
    (answer : A) (c : Component) : Component :=
  match mutationFn answer with
  | Success value =>
      match onSuccess value c with
      | Completed c' => c'
      | Raised c' error => onError error c'
      end
  | Failure error => onError error c
  end.

Definition errorToast (heading : string) (error : string) : Component → Component :=
  toast (mkToast heading error (Some "destructive")).

(** [mutationFn] of the mutations that send one request and raise the
    [message] of an error body, or a default text. *)
Definition requestFn {B : Type} (defaultError : string) (response : Response B) : Outcome B :=
  match response with
  | RespOk body => Success body
  | RespError message => Failure (or_default message defaultError)
  end.

Definition deleteMutation_onSuccess (c : Component) : Component :=
  with_state (setDeleteDialogOpen false)
    (toast (mkToast "Venda excluída" "A venda foi excluída com sucesso" None)
       (invalidateSales c)).

(** [mutationFn] of [deleteMutation]: the value of a success is [true]. *)
Definition deleteFn (response : Response json) : Outcome bool :=
  match requestFn "Erro ao excluir venda" response with
  | Success _ => Success true
  | Failure error => Failure error
  end.

Definition deleteMutation : Response json → Component → Component :=
  mutate deleteFn (λ _ c, Completed (deleteMutation_onSuccess c))
    (errorToast "Erro ao excluir venda").

(** [data.count] of the body: a value that is not an object has no
    such member. *)
Definition member (key : string) (v : json) : option json :=
  match v with
  | JObj fields => obj_get key fields
  | _ => None
  end.

(** The text of the TypeError for reading a member of [null], in the
    wording of Node and Chrome. *)
Definition cannotReadNull (key : string) : string :=
  "Cannot read properties of null (reading '" +:+ key +:+ "')".

(** [onSuccess] of [clearAllSalesMutation]: the invalidation, then the
    toast.  For a [null] body the reading of [data.count] raises, after
    the invalidation and before a toast is shown. *)
Definition clearAllSalesMutation_onSuccess (data : json) (c : Component) : Handled :=
  let c1 := invalidateSales c in
  match data with
  | JNull => Raised c1 (cannotReadNull "count")
  | _ =>
      Completed
        (toast (mkToast "Vendas removidas"
                  ("Foram removidas " +:+ interpolate (member "count" data)
                   +:+ " vendas do sistema") None) c1)
  end.

Definition clearAllSalesMutation : Response json → Component → Component :=
  mutate (requestFn "Erro ao limpar vendas")
    clearAllSalesMutation_onSuccess (errorToast "Erro ao limpar vendas").

Definition resendSaleMutation_onSuccess (c : Component) : Component :=
  toast (mkToast "Venda reenviada"
           "A venda corrigida foi reenviada com sucesso para o setor operacional" None)
    (invalidateSales c).

(** What a call of [apiRequest] gives.  [apiRequest] comes from
    [@/lib/queryClient], which is not among these sources, so what it
    makes of the answer of the server is left to the environment: it
    returns a response, of which [mutationFn] takes the body, or it
    raises an error with some message. *)
Inductive ApiResult : Type :=
| ApiReturned (body : json)
| ApiRaised (message : string).

(** [mutationFn] of [resendSaleMutation]. *)
Definition resendFn (result : ApiResult) : Outcome json :=
  match result with
  | ApiReturned body => Success body
  | ApiRaised message => Failure message
  end.

Definition resendSaleMutation : ApiResult → Component → Component :=
  mutate resendFn
    (λ _ c, Completed (resendSaleMutation_onSuccess c))
    (errorToast "Erro ao reenviar venda").

Definition markAsPaidMutation_onSuccess (c : Component) : Component :=
  toast (mkToast "Pagamento confirmado" "A venda foi marcada como paga com sucesso" None)
    (invalidateSales c).

Definition markAsPaidMutation : Response json → Component → Component :=
  mutate (requestFn "Erro ao marcar venda como paga")
    (λ _ c, Completed (markAsPaidMutation_onSuccess c))
    (errorToast "Erro ao confirmar pagamento").

(** The effect on [lastEvent] of the socket hook; [lastEventType] is
    [lastEvent?.type]. *)
Definition salesUpdateEffect (lastEventType : option string) (c : Component) : Component :=
  match lastEventType with
  | Some t =>
      if String.eqb t "sales_update"
      then toast (mkToast "Atualização de vendas" "As vendas foram atualizadas" None)
             (invalidateSales c)
      else c
  | None => c
  end.

(** *** Action gates *)

(** The condition under which the card of a sale shows the
    payment-confirmation button. *)
Definition markAsPaidButton (user : option Auth.User) (sale : Sale) : bool :=
  (Auth.role_is user "admin" || Auth.role_is user "financeiro")
  && String.eqb (status sale) "completed"
  && negb (String.eqb (financialStatus sale) "paid").

(** The two blocks of the desktop toolbar that show the
    clear-all-sales button. *)
Definition clearSalesButton (user : option Auth.User) : bool :=
  Auth.role_is user "admin" || Auth.role_is user "operacional".

Definition handleClearAllSales (c : Component) : Component :=
  with_state (setClearSalesDialogOpen true) c.

Definition handleConfirmClearAllSales (response : Response json) (c : Component) : Component :=
  clearAllSalesMutation response (with_state (setClearSalesDialogOpen false) c).


(** *** Events that change what the order pages show *)

(** The successful order mutations of the page, each with the body of
    the answer, and the arrival of a [sales_update] event. *)
Inductive Change : Type :=
| Deleted (body : json)
| Resent (body : json)
| MarkedPaid (body : json)
| Cleared (body : json)
| SalesUpdateReceived.

Definition after (change : Change) (c : Component) : Component :=
  match change with
  | Deleted body => deleteMutation (RespOk body) c
  | Resent body => resendSaleMutation (ApiReturned body) c
  | MarkedPaid body => markAsPaidMutation (RespOk body) c
  | Cleared body => handleConfirmClearAllSales (RespOk body) c
  | SalesUpdateReceived => salesUpdateEffect (Some "sales_update") c
  end.

(** *** Values used in the examples *)

Definition example_sale : Sale :=
  mkSale 1 "OS-1" "2025-04-30" 3 2 7 None None "50.00" "completed" "completed" "paid"
    None None None None "2025-04-30T10:00:00.000Z" "2025-04-30T10:00:00.000Z".

Definition example_page : SalesData := mkSalesData [example_sale] 1 1 1.

Definition example_user : Auth.User := Auth.mkUser 7 "vendedor".

(** A component on page 4 whose query cache holds that page, fetched
    at time 1000, and whose local cache holds the customers, saved at
    time 0. *)
Definition example_component : Component :=
  mkComponent
    (setPage 4 initialState)
    [mkQuery (salesQueryKey (Some example_user) (setPage 4 initialState))
       example_page 1000 false]
    {[ cacheItem "customers" := Entry (JArr [JObj [("id", JNum 3)]]) 0 ]}
    [].


(** *** Status presentation *)

(** [getStatusLabel]. *)
Definition getStatusLabel (status : string) : string :=
  if String.eqb status "pending" then "Pendente"
  else if String.eqb status "in_progress" then "Em Andamento"
  else if String.eqb status "returned" then "Devolvida"
  else if String.eqb status "completed" then "Concluída"
  else if String.eqb status "canceled" then "Cancelada"
  else if String.eqb status "corrected" then "Corrigida Aguardando Operacional"
  else status.

(** [getStatusVariant]. *)
Definition getStatusVariant (status : string) : string :=
  if String.eqb status "pending" then "warning"
  else if String.eqb status "in_progress" then "secondary"
  else if String.eqb status "returned" then "destructive"
  else if String.eqb status "completed" then "success"
  else if String.eqb status "canceled" then "outline"
  else if String.eqb status "corrected" then "primary"
  else "default".

(** [getStatusRowClass]; the empty status is falsy and leaves at once. *)
Definition getStatusRowClass (status : string) : string :=
  if negb (nonempty status) then ""
  else if String.eqb status "corrected" then "status-row-corrected"
  else if String.eqb status "completed" then "status-row-completed"
  else if String.eqb status "in_progress" then "status-row-in_progress"
  else if String.eqb status "returned" then "status-row-returned"
  else "".

(** [getStatusCardClass]. *)
Definition getStatusCardClass (status : string) : string :=
  if negb (nonempty status) then ""
  else if String.eqb status "corrected" then "status-card-corrected"
  else if String.eqb status "completed" then "status-card-completed"
  else if String.eqb status "in_progress" then "status-card-in_progress"
  else if String.eqb status "returned" then "status-card-returned"
  else "".

(** The style object of a highlighted status, by its three members in
    order; [[]] is the empty object. *)
Definition highlight (rgb : string) : list (string * string) :=
  [ ("backgroundColor", "rgba(" +:+ rgb +:+ ", 0.3)");
    ("border", "2px solid rgba(" +:+ rgb +:+ ", 0.6)");
    ("borderLeft", "5px solid rgba(" +:+ rgb +:+ ", 0.8)") ].

(** [getStatusStyle]. *)
Definition getStatusStyle (status : string) : list (string * string) :=
  if String.eqb status "corrected" then highlight "250, 240, 137"
  else if String.eqb status "completed" then highlight "134, 239, 172"
  else if String.eqb status "in_progress" then highlight "255, 159, 64"
  else if String.eqb status "returned" then highlight "252, 165, 165"
  else [].

(** *** Sorting and searching *)

Definition setSortField (v : SortField) (st : State) : State :=
  mkState (searchTerm st) v (sortDirection st) (deleteDialogOpen st)
    (clearSalesDialogOpen st) (statusFilter st) (dateRange st) (selectedSellerId st)
    (page st) (limit st) (totalPages st) (totalRecords st).
Definition setSortDirection (v : SortDirection) (st : State) : State :=
  mkState (searchTerm st) (sortField st) v (deleteDialogOpen st)
    (clearSalesDialogOpen st) (statusFilter st) (dateRange st) (selectedSellerId st)
    (page st) (limit st) (totalPages st) (totalRecords st).
Definition setSearchTerm (v : string) (st : State) : State :=
  mkState v (sortField st) (sortDirection st) (deleteDialogOpen st)
    (clearSalesDialogOpen st) (statusFilter st) (dateRange st) (selectedSellerId st)
    (page st) (limit st) (totalPages st) (totalRecords st).

Definition SortField_eqb (a b : SortField) : bool :=
  String.eqb (SortField_name a) (SortField_name b).

(** [toggleSort(field)]. *)
Definition toggleSort (field : SortField) (st : State) : State :=
  if SortField_eqb (sortField st) field then
    setSortDirection (match sortDirection st with asc => desc | desc => asc end) st
  else setSortDirection asc (setSortField field st).

(** *** The export queries *)

(** The parameters of [fetchAllSales]. *)
Definition fetchAllSalesParams (user : option Auth.User) : list (string * string) :=
  exportSellerIdParam user ++ [("limit", "1000")].

(** The parameters of [fetchAllFilteredSales]. *)
Definition fetchAllFilteredSalesParams (user : option Auth.User) (st : State)
    : list (string * string) :=
  exportSellerIdParam user
  ++ (if nonempty (statusFilter st) then [("status", statusFilter st)] else [])
  ++ (if nonempty (searchTerm st) then [("searchTerm", searchTerm st)] else [])
  ++ match dateRange st ≫= range_from with
     | Some d => [("startDate", isoDay d)] | None => [] end
  ++ match dateRange st ≫= range_to with
     | Some d => [("endDate", isoDay d)] | None => [] end
  ++ [("sortField", SortField_name (sortField st))]
  ++ [("sortDirection", SortDirection_name (sortDirection st))]
  ++ [("limit", "1000")].

(** [URLSearchParams.get]: the first value under a name. *)
Fixpoint param (name : string) (params : list (string * string)) : option string :=
  match params with
  | [] => None
  | (k, v) :: rest => if String.eqb k name then Some v else param name rest
  end.


(** The statuses that the page highlights, and the six statuses that
    it knows by name. *)
Definition highlighted : list string :=
  ["corrected"; "completed"; "in_progress"; "returned"].

Definition knownStatuses : list string :=
  ["pending"; "in_progress"; "returned"; "completed"; "canceled"; "corrected"].


(** The day half of an ISO text has ten characters ([YYYY-MM-DD]). *)
Definition datesWellFormed (st : State) : Prop :=
  ∀ d, dateRange st ≫= range_from = Some d ∨ dateRange st ≫= range_to = Some d →
       String.length (isoDay d) = 10%nat.


(** The filter and sort parameters that the page query and the
    filtered export have in common. *)
Definition viewParams : list string :=
  ["status"; "searchTerm"; "startDate"; "endDate"; "sortField"; "sortDirection"].


(** *** The order mutations that call [fetch], by name *)

Inductive Mutation : Type := Delete | ClearAll | MarkPaid.



Definition defaultError (m : Mutation) : string :=
  match m with
  | Delete => "Erro ao excluir venda"
  | ClearAll => "Erro ao limpar vendas"
  | MarkPaid => "Erro ao marcar venda como paga"
  end.


(** *** Starting and completing the execution from the list *)

(** The [useState] cells of the dialogs that the list handlers open. *)
Record Dialogs : Type := mkDialogs {
  selectedSale : option Sale;
  operationDialogOpen : bool;
  returnDialogOpen : bool;
  detailsDialogOpen : bool;
  historyDialogOpen : bool
}.

(** [setSelectedSale(sale); setOperationDialogOpen(true)]. *)
Definition openOperation (sale : Sale) (dl : Dialogs) : Dialogs :=
  mkDialogs (Some sale) true (returnDialogOpen dl) (detailsDialogOpen dl)
    (historyDialogOpen dl).

(** [sales.find(sale => sale.id === id)]. *)
Definition findSale (saleId : nat) (sales : list Sale) : option Sale :=
  List.find (λ s, (id s =? saleId)%nat) sales.

(** [startExecutionMutation] and [completeExecutionMutation], which
    differ in the title of the error toast: no request is sent; the
    sale is looked up in the rows of the page and the operation dialog
    is opened on it; on success the order pages are invalidated. *)
Definition executionMutation (errorHeading : string) (sales : list Sale) (saleId : nat)
    (p : Component * Dialogs) : Component * Dialogs :=
  match findSale saleId sales with
  | None => (errorToast errorHeading "Venda não encontrada" p.1, p.2)
  | Some sale => (invalidateSales p.1, openOperation sale p.2)
  end.

Definition startExecutionMutation := executionMutation "Erro ao iniciar execução".
Definition completeExecutionMutation := executionMutation "Erro ao concluir execução".

(** The role test of [handleStartExecution] and [handleCompleteExecution]. *)
Definition operationalRole (user : option Auth.User) : bool :=
  Auth.role_is user "operacional" || Auth.role_is user "admin"
  || Auth.role_is user "supervisor".

Definition handleStartExecution (user : option Auth.User) (sales : list Sale)
    (sale : Sale) (p : Component * Dialogs) : Component * Dialogs :=
  if operationalRole user then (p.1, openOperation sale p.2)
  else startExecutionMutation sales (id sale) p.

Definition handleCompleteExecution (user : option Auth.User) (sales : list Sale)
    (sale : Sale) (p : Component * Dialogs) : Component * Dialogs :=
  if operationalRole user then (p.1, openOperation sale p.2)
  else completeExecutionMutation sales (id sale) p.

(** *** The action buttons of a card *)

Definition adminOrOperacional (user : option Auth.User) : bool :=
  Auth.role_is user "admin" || Auth.role_is user "operacional".

Definition startButton (user : option Auth.User) (sale : Sale) : bool :=
  adminOrOperacional user
  && (String.eqb (status sale) "pending" || String.eqb (status sale) "corrected").

Definition completeButton (user : option Auth.User) (sale : Sale) : bool :=
  adminOrOperacional user && String.eqb (status sale) "in_progress".

Definition returnButton (user : option Auth.User) (sale : Sale) : bool :=
  adminOrOperacional user
  && (String.eqb (status sale) "pending" || String.eqb (status sale) "in_progress").

Definition returnCorrectedButton (user : option Auth.User) (sale : Sale) : bool :=
  adminOrOperacional user && String.eqb (status sale) "corrected".

Definition deleteButton (user : option Auth.User) : bool :=
  Auth.role_is user "admin".

(** *** Names for the rows *)

(** A row of reference data, by its id and the name shown for it
    ([name], or [username] for a user); a name that is missing is the
    empty text. *)
Record Named : Type := mkNamed {
  refId : nat;
  refName : string
}.

(** [refs.find(r => r.id === id)?.name], for an id that may be
    missing. *)
Definition nameOf (refs : list Named) (wanted : option nat) : string :=
  match wanted with
  | None => ""
  | Some i =>
      match List.find (λ r, (refId r =? i)%nat) refs with
      | Some r => refName r
      | None => ""
      end
  end.

(** The row that [find] returns for an id: the first of the list with
    that id. *)
Definition firstWithId (refs : list Named) (i : nat) (r : Named) : Prop :=
  ∃ before after, refs = before ++ r :: after ∧ refId r = i ∧
                  ∀ r', r' ∈ before → refId r' ≠ i.

(** [name || fallback] and [name || null]. *)
Definition orElse (name fallback : string) : string :=
  if nonempty name then name else fallback.

Definition orNull (name : string) : option string :=
  if nonempty name then Some name else None.

(** A row with the names filled in: [{...sale, customerName, ...}]. *)
Record EnrichedSale : Type := mkEnrichedSale {
  sale : Sale;
  customerName : string;
  sellerName : string;
  paymentMethodName : string;
  serviceTypeName : option string;
  serviceProviderName : option string
}.

(** The reference lists that the page has loaded. *)
Record References : Type := mkReferences {
  customerRefs : list Named;
  userRefs : list Named;
  paymentMethodRefs : list Named;
  serviceTypeRefs : list Named;
  serviceProviderRefs : list Named
}.

(** The body of [sales.map(...)] that builds [enrichedSales]. *)
Definition enrich (refs : References) (s : Sale) : EnrichedSale :=
  mkEnrichedSale s
    (orElse (nameOf (customerRefs refs) (Some (customerId s)))
       ("Cliente #" +:+ pretty (customerId s)))
    (orElse (nameOf (userRefs refs) (Some (sellerId s)))
       ("Vendedor #" +:+ pretty (sellerId s)))
    (orElse (nameOf (paymentMethodRefs refs) (Some (paymentMethodId s)))
       ("Forma de Pagamento #" +:+ pretty (paymentMethodId s)))
    (orNull (nameOf (serviceTypeRefs refs) (serviceTypeId s)))
    (orNull (nameOf (serviceProviderRefs refs) (serviceProviderId s))).

Definition enrichedSales (refs : References) (sales : list Sale) : list EnrichedSale :=
  map (enrich refs) sales.


(** *** Export to Excel *)



Section ExcelExport.

(** [format(new Date(date), 'dd/MM/yyyy')], the text of
    [parseFloat(amount).toFixed(2).replace('.', ',')], and
    [format(new Date(), 'dd-MM-yyyy')] at the time of the export. *)
Variable formatDay : string → string.
Variable formatAmount : string → string.
Variable today : string.

(** The references that the export queries use for the names. *)
Variable refs : References.








End ExcelExport.



End SalesPage.

(** ** The order store gateway

    The server routes behind [/api/sales] are not among the sources;
    the definitions of this module follow the specification. *)

Module Gateway.

(** Modelled from the spec: the roles of the actors (the role type of
    the server is missing). *)
Inductive Role : Type := seller | operator | supervisor | finance | admin.

Global Instance Role_eq_dec : EqDecision Role.
Proof. solve_decision. Defined.

(** Modelled from the spec: the execution status of an order. *)
Inductive ExecutionStatus : Type :=
| pending | in_progress | returned | completed | canceled | corrected.

Global Instance ExecutionStatus_eq_dec : EqDecision ExecutionStatus.
Proof. solve_decision. Defined.

(** Modelled from the spec: the financial status of an order. *)
Inductive FinancialStatus : Type := unpaid | paid.

Global Instance FinancialStatus_eq_dec : EqDecision FinancialStatus.
Proof. solve_decision. Defined.

(** Modelled from the spec: the names of the execution statuses, by
    which a sort on the status orders them. *)
Definition ExecutionStatus_name (s : ExecutionStatus) : string :=
  match s with
  | pending => "pending"
  | in_progress => "in_progress"
  | returned => "returned"
  | completed => "completed"
  | canceled => "canceled"
  | corrected => "corrected"
  end.

(** Modelled from the spec: the Order entity of the data model (the
    stored order of the server is missing).  The total amount is a
    fixed-point number, held as a count of its smallest unit; the date
    is a day number. *)
Record Order : Type := mkOrder {
  id : nat;
  orderNumber : string;
  customerName : string;
  sellerId : nat;
  sellerName : string;
  date : Z;
  totalAmount : Z;
  executionStatus : ExecutionStatus;
  financialStatus : FinancialStatus;
  responsibleFinancialId : option nat
}.

(** Modelled from the spec: an actor, with the role presented for
    authorization. *)
Record Actor : Type := mkActor {
  actorId : nat;
  actorRole : Role
}.

(** Modelled from the spec: the error taxonomy, as far as the
    transitions here use it. *)
Inductive Rejection : Type :=
| TransitionNotAllowed
| ForbiddenActor
| PreconditionFailed (field : string).

(** *** Mark-paid *)

(** Modelled from the spec: the validator for the mark-paid request
    (the handler of [POST /orders/{id}/mark-paid] is missing).  The row
    of the transition table is
    [completed | (financial: unpaid -> paid) | finance, admin];
    a request off that edge is [TransitionNotAllowed], a role that is
    not listed is [ForbiddenActor]. *)
Definition validateMarkPaid (o : Order) (role : Role) : option Rejection :=
  if bool_decide (executionStatus o = completed ∧ financialStatus o = unpaid) then
    if bool_decide (role = finance ∨ role = admin) then None
    else Some ForbiddenActor
  else Some TransitionNotAllowed.

(** Modelled from the spec: [applyTransition] for mark-paid: run the
    validator and, only if it accepts, store the paid status together
    with the financial actor who confirmed the payment. *)
Definition applyMarkPaid (actor : Actor) (o : Order) : Order + Rejection :=
  match validateMarkPaid o (actorRole actor) with
  | Some rejection => inr rejection
  | None =>
      inl (mkOrder (id o) (orderNumber o) (customerName o) (sellerId o) (sellerName o)
             (date o) (totalAmount o) (executionStatus o) paid (Some (actorId actor)))
  end.

(** *** Page queries *)

(** Modelled from the spec: the filter of a page request: status
    (optional), free text (empty for none), inclusive date range
    (optional ends), seller (optional). *)
Record Filter : Type := mkFilter {
  statusFilter : option ExecutionStatus;
  searchTerm : string;
  startDate : option Z;
  endDate : option Z;
  sellerFilter : option nat
}.

(** Modelled from the spec: the enumerated sort fields and directions. *)
Inductive SortField : Type :=
| by_orderNumber | by_date | by_customerName | by_sellerName | by_totalAmount | by_status.

Inductive SortDirection : Type := asc | desc.

Record Sort : Type := mkSort {
  sortField : SortField;
  sortDirection : SortDirection
}.

(** Modelled from the spec: the scope of an actor: a seller is
    restricted to the own orders, the other roles are not restricted. *)
Definition scopeOf (actor : Actor) : option nat :=
  match actorRole actor with
  | seller => Some (actorId actor)
  | _ => None
  end.

(** Modelled from the spec: the match of the free text against a
    text of the order. *)
Definition contains (needle haystack : string) : bool :=
  bool_decide (is_Some (String.index 0 needle haystack)).

(** Modelled from the spec: which orders a filter and a scope select. *)
Definition selects (f : Filter) (scope : option nat) (o : Order) : bool :=
  match statusFilter f with Some s => bool_decide (executionStatus o = s) | None => true end
  && (String.eqb (searchTerm f) ""
      || contains (searchTerm f) (orderNumber o)
      || contains (searchTerm f) (customerName o)
      || contains (searchTerm f) (sellerName o))
  && match startDate f with Some d => (d <=? date o)%Z | None => true end
  && match endDate f with Some d => (date o <=? d)%Z | None => true end
  && match sellerFilter f with Some s => bool_decide (sellerId o = s) | None => true end
  && match scope with Some s => bool_decide (sellerId o = s) | None => true end.

(** Modelled from the spec: the comparison of two orders on a sort
    field. *)
Definition compareField (field : SortField) (a b : Order) : comparison :=
  match field with
  | by_orderNumber => String.compare (orderNumber a) (orderNumber b)
  | by_date => (date a ?= date b)%Z
  | by_customerName => String.compare (customerName a) (customerName b)
  | by_sellerName => String.compare (sellerName a) (sellerName b)
  | by_totalAmount => (totalAmount a ?= totalAmount b)%Z
  | by_status =>
      String.compare (ExecutionStatus_name (executionStatus a))
        (ExecutionStatus_name (executionStatus b))
  end.

(** Modelled from the spec: the order of a sorted page: the sort field
    in the requested direction, ties broken by ascending order id. *)
Definition precedes (s : Sort) (a b : Order) : bool :=
  match compareField (sortField s) a b, sortDirection s with
  | Eq, _ => (id a <=? id b)%nat
  | Lt, asc => true
  | Gt, asc => false
  | Lt, desc => false
  | Gt, desc => true
  end.

(** Modelled from the spec: [precedes] as the relation handed to the
    sort. *)
Definition Precedes (s : Sort) (a b : Order) : Prop := precedes s a b = true.

Global Instance Precedes_dec (s : Sort) : RelDecision (Precedes s).
Proof. intros a b. unfold Precedes. apply _. Defined.

(** Modelled from the spec:
    [queryPage(filter, sort, page, pageSize, scope) -> (items, totalCount)];
    the total is counted against the same filter as the page. *)
Definition queryPage (store : list Order) (f : Filter) (s : Sort)
    (page pageSize : nat) (scope : option nat) : list Order * nat :=
  let matching := filter (λ o, selects f scope o = true) store in
  let sorted := merge_sort (Precedes s) matching in
  (take pageSize (drop ((page - 1) * pageSize) sorted), length matching).

(** Modelled from the spec: a page query on behalf of an actor; the
    scope comes from the actor, not from the request. *)
Definition queryPageFor (actor : Actor) (store : list Order) (f : Filter) (s : Sort)
    (page pageSize : nat) : list Order * nat :=
  queryPage store f s page pageSize (scopeOf actor).


(** Modelled from the spec: a store for the examples, with two orders
    of seller 7 and one of seller 8. *)
Definition example_store : list Order :=
  [ mkOrder 1 "OS-1" "Ana" 7 "joao" 100 5000 completed unpaid None;
    mkOrder 2 "OS-2" "Bia" 8 "maria" 101 7000 pending unpaid None;
    mkOrder 3 "OS-3" "Caio" 7 "joao" 102 1000 in_progress unpaid None ].

End Gateway.

(** ** components/customers/customer-dialog.tsx: the document checks *)

Module CustomerDialog.

(** The character class [\d]. *)
Definition isDigit (c : ascii) : bool :=
  (48 <=? nat_of_ascii c)%nat && (nat_of_ascii c <=? 57)%nat.

(** [value.replace(/\D/g, '')]. *)
Fixpoint onlyDigits (s : string) : string :=
  match s with
  | EmptyString => EmptyString
  | String c rest => if isDigit c then String c (onlyDigits rest) else onlyDigits rest
  end.

(** The digits of a cleaned text, as numbers: [parseInt(clean.charAt(i))]
    is the i-th of them. *)
Definition digitValue (c : ascii) : nat := nat_of_ascii c - 48.

Fixpoint digits (clean : string) : list nat :=
  match clean with
  | EmptyString => []
  | String c rest => digitValue c :: digits rest
  end.

(** The digit at an index (every index read below is under the length
    checked first). *)
Definition digitAt (ds : list nat) (i : nat) : nat := nth i ds 0%nat.

(** [/^(\d)\1+$/] on a cleaned text: two digits or more, all the same. *)
Definition allSame (ds : list nat) : bool :=
  match ds with
  | d :: (_ :: _) as rest => forallb (Nat.eqb d) rest
  | _ => false
  end.

(** The sum of a CPF loop: [for (i = 0; i < count; i++) sum += d[i] * (weight - i)]. *)
Definition cpfSum (ds : list nat) (count weight : nat) : nat :=
  fold_left (λ sum i, sum + digitAt ds i * (weight - i))%nat (seq 0 count) 0%nat.

(** [rest = 11 - (sum % 11); digit = rest >= 10 ? 0 : rest]. *)
Definition cpfCheckDigit (sum : nat) : nat :=
  let rest := (11 - sum mod 11)%nat in
  if (10 <=? rest)%nat then 0%nat else rest.

(** The CPF test on the digits of the cleaned text. *)
Definition cpfDigitsValid (ds : list nat) : bool :=
  if negb (length ds =? 11)%nat then false
  else if allSame ds then false
  else (cpfCheckDigit (cpfSum ds 9 10) =? digitAt ds 9)%nat
       && (cpfCheckDigit (cpfSum ds 10 11) =? digitAt ds 10)%nat.

(** [isValidCPF]. *)
Definition isValidCPF (cpf : string) : bool := cpfDigitsValid (digits (onlyDigits cpf)).

(** The sum of a CNPJ loop over [numbers], the weight starting at [pos]:
    [sum += d * pos--; if (pos < 2) pos = 9]. *)
Fixpoint cnpjSum (numbers : list nat) (pos sum : nat) : nat :=
  match numbers with
  | [] => sum
  | d :: rest =>
      let sum' := (sum + d * pos)%nat in
      let pos' := (pos - 1)%nat in
      cnpjSum rest (if (pos' <? 2)%nat then 9%nat else pos') sum'
  end.

(** [sum % 11 < 2 ? 0 : 11 - sum % 11]. *)
Definition cnpjCheckDigit (sum : nat) : nat :=
  if (sum mod 11 <? 2)%nat then 0%nat else (11 - sum mod 11)%nat.

(** The CNPJ test on the digits of the cleaned text. *)
Definition cnpjDigitsValid (ds : list nat) : bool :=
  if negb (length ds =? 14)%nat then false
  else if allSame ds then false
  else if negb (cnpjCheckDigit (cnpjSum (take 12 ds) 5 0) =? digitAt ds 12)%nat then false
  else (cnpjCheckDigit (cnpjSum (take 13 ds) 6 0) =? digitAt ds 13)%nat.

(** [isValidCNPJ]. *)
Definition isValidCNPJ (cnpj : string) : bool := cnpjDigitsValid (digits (onlyDigits cnpj)).

Inductive DocumentType : Type := cpf | cnpj.

(** [validateDocument]: -1 invalid, 0 incomplete, 1 valid. *)
Definition validateDocument (value : string) (type : DocumentType) : Z :=
  if String.eqb value "" then 0%Z
  else
    let cleanValue := onlyDigits value in
    match type with
    | cpf =>
        if negb (String.length cleanValue =? 11)%nat then 0%Z
        else if isValidCPF cleanValue then 1%Z else (-1)%Z
    | cnpj =>
        if negb (String.length cleanValue =? 14)%nat then 0%Z
        else if isValidCNPJ cleanValue then 1%Z else (-1)%Z
    end.

(** A regular expression of the schema, by the classes of its
    characters: a digit, or one given character. *)
Inductive Class : Type := D | Lit (c : ascii).

Global Instance Class_eq_dec : EqDecision Class.
Proof. solve_decision. Defined.

Fixpoint matches (pattern : list Class) (s : string) : bool :=
  match pattern, s with
  | [], EmptyString => true
  | D :: pattern', String c rest => isDigit c && matches pattern' rest
  | Lit l :: pattern', String c rest => Ascii.eqb c l && matches pattern' rest
  | _, _ => false
  end.

(** [cpfRegex] and [cnpjRegex] of the [refine] of the document field. *)
Definition cpfRegex : list Class :=
  [D; D; D; Lit "."; D; D; D; Lit "."; D; D; D; Lit "-"; D; D].
Definition cnpjRegex : list Class :=
  [D; D; Lit "."; D; D; D; Lit "."; D; D; D; Lit "/"; D; D; D; D; Lit "-"; D; D].

Definition formatOk (val : string) : bool := matches cpfRegex val || matches cnpjRegex val.

(** The [superRefine] of the document field: the issue that it adds,
    if any. *)
Definition checksumIssue (val : string) : option string :=
  let clean := digits (onlyDigits val) in
  if (length clean =? 11)%nat then
    if allSame clean then Some "CPF inválido (dígitos repetidos)"
    else if negb ((cpfCheckDigit (cpfSum clean 9 10) =? digitAt clean 9)%nat
                  && (cpfCheckDigit (cpfSum clean 10 11) =? digitAt clean 10)%nat)
    then Some "CPF inválido (algorítmo de verificação)"
    else None
  else if (length clean =? 14)%nat then
    if allSame clean then Some "CNPJ inválido (dígitos repetidos)"
    else if negb (cnpjCheckDigit (cnpjSum (take 12 clean) 5 0) =? digitAt clean 12)%nat
    then Some "CNPJ inválido (algorítmo de verificação)"
    else if negb (cnpjCheckDigit (cnpjSum (take 13 clean) 6 0) =? digitAt clean 13)%nat
    then Some "CNPJ inválido (algorítmo de verificação)"
    else None
  else None.


(** *** The input masks *)

(** Whether a text starts with [k] digits. *)
Fixpoint startsWithDigits (k : nat) (s : string) : bool :=
  match k with
  | O => true
  | S k' =>
      match s with
      | String c rest => isDigit c && startsWithDigits k' rest
      | EmptyString => false
      end
  end.

Fixpoint takeChars (k : nat) (s : string) : string :=
  match k, s with
  | S k', String c rest => String c (takeChars k' rest)
  | _, _ => EmptyString
  end.

Fixpoint dropChars (k : nat) (s : string) : string :=
  match k, s with
  | S k', String _ rest => dropChars k' rest
  | _, _ => s
  end.

(** [s.replace(/(\d{k})(\d)/, before + "$1" + after + "$2")], and the
    same with [(\d{1,2})] for the second group: at the leftmost place
    where [k] digits are followed by one more digit, [before] goes in
    front of the [k] digits and [after] behind them; a text without
    such a place is returned as it is. *)
Fixpoint wrapDigits (k : nat) (before after : string) (s : string) : string :=
  if startsWithDigits (S k) s
  then before +:+ takeChars k s +:+ after +:+ dropChars k s
  else match s with
       | EmptyString => EmptyString
       | String c rest => String c (wrapDigits k before after rest)
       end.

(** Whether a text consists of one digit or more. *)
Fixpoint someDigitsOnly (s : string) : bool :=
  match s with
  | EmptyString => false
  | String c EmptyString => isDigit c
  | String c rest => isDigit c && someDigitsOnly rest
  end.

(** [s.replace(/(-\d{k})\d+?$/, "$1")]: at the leftmost hyphen that is
    followed by [k] digits and then by digits only, one or more, up to
    the end, these last digits are cut off. *)
Fixpoint cutAfterHyphen (k : nat) (s : string) : string :=
  match s with
  | EmptyString => EmptyString
  | String c rest =>
      if Ascii.eqb c "-" && startsWithDigits k rest && someDigitsOnly (dropChars k rest)
      then String c (takeChars k rest)
      else String c (cutAfterHyphen k rest)
  end.

(** [formatDocument]. *)
Definition formatDocument (value : string) (type : DocumentType) : string :=
  let numbers := onlyDigits value in
  match type with
  | cpf =>
      cutAfterHyphen 2
        (wrapDigits 3 "" "-" (wrapDigits 3 "" "." (wrapDigits 3 "" "." numbers)))
  | cnpj =>
      cutAfterHyphen 2
        (wrapDigits 4 "" "-"
           (wrapDigits 3 "" "/" (wrapDigits 3 "" "." (wrapDigits 2 "" "." numbers))))
  end.

(** [formatPhone]. *)
Definition formatPhone (value : string) : string :=
  cutAfterHyphen 4 (wrapDigits 5 "" "-" (wrapDigits 2 "(" ") " (onlyDigits value))).

(** The regular expression of the [phone] field. *)
Definition phoneRegex : list Class :=
  [Lit "("; D; D; Lit ")"; Lit " "; D; D; D; D; D; Lit "-"; D; D; D; D].

End CustomerDialog.

(** * Properties *)

(** ** The push channel *)

Module WebsocketFacts.
Import Json Websocket.

Lemma is_open_lookup w s :
  is_open w s = true ↔ ∃ ws, sockets s !! w = Some ws ∧ readyState ws = OPEN.
Proof.
  unfold is_open, readyState_of. rewrite bool_decide_eq_true.
  destruct (sockets s !! w) as [ws|]; simpl; split.
  - intros [= H]. eauto.
  - intros (ws' & [= <-] & H). by rewrite H.
  - done.
  - intros (ws' & H & _). done.
Qed.

Lemma send_open w data s ws :
  sockets s !! w = Some ws → readyState ws = OPEN → sendThrows ws = false →
  send w data s =
    Done (set_sockets <[w := mkWebSocket OPEN false (sent ws ++ [data])]> s).
Proof. intros Hw Hr Ht. unfold send. by rewrite Hw, Ht, Hr. Qed.

Lemma deliver_0 message ws : deliver 0 message ws = ws.
Proof.
  unfold deliver. destruct ws as [r t q]; simpl.
  destruct r; try done. by rewrite app_nil_r.
Qed.

Lemma broadcast_loop_spec message clients :
  ∀ s,
    (∀ w ws, w ∈ clients → sockets s !! w = Some ws → sendThrows ws = false) →
    ∃ s', broadcast_loop message clients s = Done s' ∧
          connections s' = connections s ∧
          intervals s' = intervals s ∧
          logs s' = logs s ∧
          ∀ w, sockets s' !! w =
               deliver (count_occ Nat.eq_dec clients w) message <$> sockets s !! w.
Proof.
  induction clients as [|client rest IH]; intros s Hok.
  - exists s. simpl. repeat split; try done.
    intros w. destruct (sockets s !! w) as [ws|]; simpl; [|done].
    by rewrite deliver_0.
  - cbn [broadcast_loop]. destruct (is_open client s) eqn:Hop.
    + apply is_open_lookup in Hop as (ws & Hws & Hr).
      assert (Ht : sendThrows ws = false) by (eapply Hok; [left|done]).
      rewrite (send_open _ _ _ _ Hws Hr Ht).
      set (s1 := set_sockets _ s).
      destruct (IH s1) as (s' & Hrun & Hc & Hi & Hl & Hs).
      { intros w ws' Hin. unfold s1; simpl.
        destruct (decide (client = w)) as [->|Hne].
        - rewrite lookup_insert_eq. by intros [= <-].
        - rewrite lookup_insert_ne by done. apply Hok. by right. }
      exists s'. repeat split; try done.
      intros w. rewrite Hs. unfold s1; cbn [sockets set_sockets].
      destruct (decide (client = w)) as [->|Hne].
      * rewrite lookup_insert_eq, Hws, count_occ_cons_eq by done. simpl.
        f_equal. unfold deliver; simpl. rewrite Hr, Ht.
        by rewrite <- app_assoc.
      * by rewrite lookup_insert_ne, count_occ_cons_neq by done.
    + destruct (IH s) as (s' & Hrun & Hc & Hi & Hl & Hs).
      { intros w ws' Hin. apply Hok. by right. }
      exists s'. repeat split; try done.
      intros w. rewrite Hs.
      destruct (decide (client = w)) as [->|Hne].
      * rewrite count_occ_cons_eq by done.
        destruct (sockets s !! w) as [ws|] eqn:Hws; simpl; [|done].
        f_equal. unfold deliver.
        destruct (readyState ws) eqn:Hr; try done.
        assert (is_open w s = true) by (apply is_open_lookup; eauto).
        congruence.
      * by rewrite count_occ_cons_neq by done.
Qed.

Lemma sent_of_fmap w s s' f :
  sockets s' !! w = f <$> sockets s !! w →
  sent_of w s' = default [] (sent ∘ f <$> sockets s !! w).
Proof. intros H. unfold sent_of. rewrite H. by destruct (sockets s !! w). Qed.

(** X29.  Every call of [notifySalesUpdate] in which no [send] raises
    writes exactly one message to every registered connection that is
    open, and none to the others; the message is the same text for all
    of them: an event of type [sales_update] whose payload holds the
    timestamp and nothing else. *)
Theorem notifySalesUpdate_broadcast (now : Z) (s : Server) :
  NoDup (connections s) →
  (∀ w ws, w ∈ connections s → sockets s !! w = Some ws → sendThrows ws = false) →
  let message :=
    stringify (JObj [("type", JStr "sales_update");
                     ("payload", JObj [("timestamp", JNum now)])]) in
  ∃ s', notifySalesUpdate now s = Done s' ∧
        connections s' = connections s ∧
        ∀ w, sent_of w s' =
             if is_open w s && bool_decide (w ∈ connections s)
             then sent_of w s ++ [message]
             else sent_of w s.
Proof.
  intros Hnd Hok message.
  unfold notifySalesUpdate, broadcastEvent.
  set (s1 := log _ s).
  destruct (broadcast_loop_spec message (connections s1) s1)
    as (s' & Hrun & Hc & _ & _ & Hs); [exact Hok|].
  exists s'. split; [exact Hrun|]. split; [exact Hc|].
  intros w. unfold sent_of at 1. rewrite Hs.
  change (sockets s1) with (sockets s). change (connections s1) with (connections s).
  destruct (is_open w s) eqn:Hop; simpl.
  - apply is_open_lookup in Hop as (ws & Hws & Hr).
    unfold sent_of. rewrite Hws. simpl. unfold deliver. rewrite Hr. simpl.
    case_bool_decide as Hin.
    + apply list_elem_of_In in Hin.
      apply NoDup_ListNoDup in Hnd.
      pose proof (proj1 (NoDup_count_occ' Nat.eq_dec (connections s)) Hnd w Hin) as ->.
      done.
    + rewrite list_elem_of_In in Hin.
      apply (count_occ_not_In Nat.eq_dec) in Hin. rewrite Hin.
      simpl. by rewrite app_nil_r.
  - unfold sent_of. destruct (sockets s !! w) as [ws|] eqn:Hws; simpl; [|done].
    unfold deliver. destruct (readyState ws) eqn:Hr; try done.
    assert (is_open w s = true) by (apply is_open_lookup; eauto). congruence.
Qed.

Lemma notifySalesUpdate_broadcast_witness :
  ∃ s', notifySalesUpdate 1000 example_server = Done s' ∧
        connections s' = [1; 2; 3]%nat ∧
        length (sent_of 1 s') = 1%nat ∧ sent_of 2 s' = [] ∧ sent_of 3 s' = sent_of 1 s'.
Proof.
  destruct (notifySalesUpdate_broadcast 1000 example_server) as (s' & Hrun & Hc & Hs).
  - compute_done.
  - intros w ws Hin.
    repeat (apply elem_of_cons in Hin as [->|Hin]);
      [vm_compute; by intros [= <-].. | by apply elem_of_nil in Hin].
  - exists s'. split; [exact Hrun|]. split; [exact Hc|].
    rewrite (Hs 1%nat), (Hs 2%nat), (Hs 3%nat). by vm_compute.
Defined.

(** Whatever [send] does, it only ever touches the [sent] queue of its
    own socket. *)
Lemma send_frame w data s :
  let s' := state_of (send w data s) in
  connections s' = connections s ∧ intervals s' = intervals s ∧ logs s' = logs s ∧
  (∀ w', readyState_of w' s' = readyState_of w' s) ∧
  (∀ w', w' ≠ w → sockets s' !! w' = sockets s !! w').
Proof.
  unfold send. destruct (sockets s !! w) as [ws|] eqn:Hw; [|by simpl].
  destruct (sendThrows ws); [by simpl|].
  destruct (readyState ws) eqn:Hr; simpl; try done.
  repeat split; try done.
  - intros w'. unfold readyState_of; simpl.
    destruct (decide (w = w')) as [->|Hne].
    + by rewrite lookup_insert_eq, Hw; simpl; rewrite Hr.
    + by rewrite lookup_insert_ne.
  - intros w' Hne. by rewrite lookup_insert_ne.
Qed.

(** *** The heartbeat and the close handler *)

Lemma terminate_frame w s :
  connections (terminate w s) = connections s ∧
  intervals (terminate w s) = intervals s ∧
  logs (terminate w s) = logs s.
Proof.
  unfold terminate. destruct (sockets s !! w) as [ws|]; [|done].
  by destruct (readyState ws).
Qed.



(** No firing of the interval changes the [connections] array. *)
Lemma onInterval_connections w now s :
  connections (onInterval w now s) = connections s.
Proof.
  unfold onInterval.
  set (s1 := if is_open w s then _ else s).
  assert (connections s1 = connections s) as H1.
  { unfold s1. destruct (is_open w s); [|done].
    pose proof (send_frame w (stringify (WSEvent_json (periodicPingEvent now))) s)
      as (Hc & _).
    destruct (send w _ s) as [s'|s']; simpl in Hc; [done|].
    by rewrite (proj1 (terminate_frame w _)). }
  by destruct (is_open w s1).
Qed.

Lemma indexOf_Some w l i :
  indexOf w l = Some i →
  ∃ l1 l2, l = l1 ++ w :: l2 ∧ (w ∉ l1) ∧ splice1 i l = l1 ++ l2.
Proof.
  revert i. induction l as [|x l IH]; intros i; simpl; [done|].
  destruct (decide (x = w)) as [->|Hne].
  - intros [= <-]. exists [], l. split; [done|]. split; [apply not_elem_of_nil|].
    unfold splice1. simpl. by rewrite drop_0.
  - destruct (indexOf w l) as [j|]; simpl; [|done].
    intros [= <-]. destruct (IH j eq_refl) as (l1 & l2 & -> & Hnin & Hsp).
    exists (x :: l1), l2. split; [done|]. split.
    + rewrite not_elem_of_cons. split; [congruence|done].
    + unfold splice1 in *. simpl. by rewrite Hsp.
Qed.

Lemma indexOf_None w l : indexOf w l = None → w ∉ l.
Proof.
  induction l as [|x l IH]; simpl; [intros; apply not_elem_of_nil|].
  destruct (decide (x = w)) as [->|Hne]; [done|].
  destruct (indexOf w l); simpl; [done|].
  intros _. rewrite not_elem_of_cons. split; [congruence|by apply IH].
Qed.

(** The close event takes the socket out of the array (one entry of it)
    and leaves every other entry in place. *)
Lemma onClose_connections w s :
  NoDup (connections s) →
  (w ∉ connections (onClose w s)) ∧
  ∀ w', w' ≠ w → (w' ∈ connections (onClose w s) ↔ w' ∈ connections s).
Proof.
  intros Hnd. unfold onClose; cbn [connections set_intervals log].
  destruct (indexOf w (connections s)) as [i|] eqn:Hi.
  - destruct (indexOf_Some _ _ _ Hi) as (l1 & l2 & Hl & Hnin & Hsp).
    cbn [connections set_connections]. rewrite Hsp.
    rewrite Hl in Hnd. apply NoDup_app in Hnd as (_ & Hdisj & Hnd2).
    apply NoDup_cons in Hnd2 as [Hnin2 _].
    split.
    + rewrite not_elem_of_app. done.
    + intros w' Hne. rewrite Hl, !elem_of_app, elem_of_cons. intuition congruence.
  - split; [by apply indexOf_None|done].
Qed.

Lemma onClose_intervals w s : w ∉ intervals (onClose w s).
Proof.
  unfold onClose; cbn [intervals set_intervals].
  rewrite not_elem_of_difference. right. by apply elem_of_singleton.
Qed.

Lemma send_sent w data s w' :
  let s' := state_of (send w data s) in
  sent_of w' s' = sent_of w' s ∨
  (w' = w ∧ sent_of w s' = sent_of w s ++ [data]).
Proof.
  unfold send. destruct (sockets s !! w) as [ws|] eqn:Hw; [|by left].
  destruct (sendThrows ws); [by left|].
  destruct (readyState ws) eqn:Hr; simpl; try by left.
  destruct (decide (w' = w)) as [->|Hne].
  - right. split; [done|]. unfold sent_of; simpl.
    by rewrite lookup_insert_eq, Hw.
  - left. unfold sent_of; simpl. by rewrite lookup_insert_ne.
Qed.







(** *** Incoming messages *)

Lemma is_ping_true t : is_ping t = true ↔ t = Some (JStr "ping").
Proof.
  unfold is_ping. destruct t as [[| | |x| |]|]; try (split; [discriminate|intros [=]]).
  rewrite String.eqb_eq. split; [by intros ->|by intros [= ->]].
Qed.

(** A message handler run leaves registry, timers and socket states
    alone, and writes at most one text, to its own socket. *)
Lemma onMessage_frame parse w message now s :
  let s' := onMessage parse w message now s in
  connections s' = connections s ∧
  intervals s' = intervals s ∧
  (∀ w', readyState_of w' s' = readyState_of w' s) ∧
  (∀ w', sent_of w' s' = sent_of w' s ∨
         (w' = w ∧
          (∃ fields, parse message = Some (JObj fields) ∧
                     obj_get "type" fields = Some (JStr "ping")) ∧
          sent_of w s' =
            sent_of w s ++ [stringify (WSEvent_json (pongEvent now))])).
Proof.
  unfold onMessage.
  destruct (parse message) as [v|] eqn:Hp; [|by repeat split; try left].
  destruct (event_type v) as [t|] eqn:Ht; [|by repeat split; try left].
  destruct (is_ping t) eqn:Hping; [|by repeat split; try left].
  apply is_ping_true in Hping as ->.
  assert (∃ fields, v = JObj fields ∧ obj_get "type" fields = Some (JStr "ping"))
    as (fields & -> & Hget).
  { destruct v; simpl in Ht; try discriminate. injection Ht as Ht. eauto. }
  set (s1 := log _ s).
  set (data := stringify _).
  pose proof (send_frame w data s1) as (Hc & Hi & _ & Hr & _).
  pose proof (λ w', send_sent w data s1 w') as Hsent.
  destruct (send w data s1) as [s2|s2]; simpl in *.
  - repeat split; try done.
    intros w'. destruct (Hsent w') as [H|[-> H]]; [by left|right; eauto].
  - repeat split; try done.
    intros w'. destruct (Hsent w') as [H|[-> H]]; [by left|right; eauto].
Qed.

(** C10.  A message that is not valid JSON is logged as an error and
    has no other effect: its connection stays registered and open and
    nothing is written to any socket.  For every message, a reply is
    written only when the message parsed to an object whose [type] is
    [ping], it goes to the sender alone, and it is the [pong] event. *)
Theorem onMessage_invalid_json_discarded (parse : string → option json)
    (w : nat) (message : string) (now : Z) (s : Server) :
  parse message = None →
  onMessage parse w message now s = log (LogError "Erro ao processar mensagem") s ∧
  sockets (onMessage parse w message now s) = sockets s ∧
  connections (onMessage parse w message now s) = connections s ∧
  intervals (onMessage parse w message now s) = intervals s ∧
  (∀ message' now' s0,
     let s' := onMessage parse w message' now' s0 in
     connections s' = connections s0 ∧
     (∀ w', readyState_of w' s' = readyState_of w' s0) ∧
     (∀ w', sent_of w' s' = sent_of w' s0 ∨
            (w' = w ∧
             (∃ fields, parse message' = Some (JObj fields) ∧
                        obj_get "type" fields = Some (JStr "ping")) ∧
             sent_of w s' =
               sent_of w s0 ++ [stringify (WSEvent_json (pongEvent now'))])) ∧
     type (pongEvent now') = pong).
Proof.
  intros Hp.
  assert (onMessage parse w message now s
          = log (LogError "Erro ao processar mensagem") s) as ->.
  { unfold onMessage. by rewrite Hp. }
  repeat split; try done;
    destruct (onMessage_frame parse w message' now' s0) as (Hc & _ & Hr & Hs);
    done.
Qed.

Lemma onMessage_invalid_json_discarded_witness :
  parse_ping_only "not json" = None ∧
  connections (onMessage parse_ping_only 1 "not json" 1000 example_server)
    = [1; 2; 3]%nat ∧
  readyState_of 1 (onMessage parse_ping_only 1 "not json" 1000 example_server)
    = Some OPEN.
Proof.
  split; [reflexivity|].
  destruct (onMessage_invalid_json_discarded
              parse_ping_only 1 "not json" 1000 example_server eq_refl)
    as (_ & _ & Hc & _ & Hall).
  split; [exact Hc|].
  destruct (Hall "not json" 1000%Z example_server) as (_ & Hr & _).
  rewrite Hr. reflexivity.
Defined.


(** A raising [send] ends the [forEach] of [broadcastEvent] at the
    first open connection whose [send] raises: the connections behind
    it in the array are not reached. *)
Lemma broadcast_loop_stops_at_raising_send message before w after :
  ∀ s ws,
    (∀ x wx, x ∈ before → sockets s !! x = Some wx → sendThrows wx = false) →
    w ∉ before →
    sockets s !! w = Some ws → readyState ws = OPEN → sendThrows ws = true →
    ∃ s', broadcast_loop message (before ++ w :: after) s = Threw s' ∧
          connections s' = connections s ∧
          ∀ x, x ∉ before → sent_of x s' = sent_of x s.
Proof.
  induction before as [|b before IH]; intros s ws Hok Hnin Hw Hr Ht.
  - exists s. cbn [app broadcast_loop].
    assert (is_open w s = true) as -> by (apply is_open_lookup; eauto).
    unfold send. by rewrite Hw, Ht.
  - apply not_elem_of_cons in Hnin as [Hne Hnin].
    cbn [app broadcast_loop]. destruct (is_open b s) eqn:Hop.
    + apply is_open_lookup in Hop as (wb & Hb & Hrb).
      assert (sendThrows wb = false) as Htb by (eapply Hok; [left|done]).
      rewrite (send_open _ _ _ _ Hb Hrb Htb).
      set (s1 := set_sockets _ s).
      destruct (IH s1 ws) as (s' & Hrun & Hc & Hs); try done.
      { intros x wx Hx. unfold s1; cbn [sockets set_sockets].
        destruct (decide (b = x)) as [->|Hbx].
        - rewrite lookup_insert_eq. by intros [= <-].
        - rewrite lookup_insert_ne by done. apply Hok. by right. }
      { unfold s1; cbn [sockets set_sockets]. by rewrite lookup_insert_ne. }
      exists s'. split; [done|]. split; [done|].
      intros x [Hxb Hx]%not_elem_of_cons. rewrite (Hs x Hx).
      unfold sent_of, s1; cbn [sockets set_sockets]. by rewrite lookup_insert_ne.
    + destruct (IH s ws) as (s' & Hrun & Hc & Hs); try done.
      { intros x wx Hx. apply Hok. by right. }
      exists s'. split; [done|]. split; [done|].
      intros x [_ Hx]%not_elem_of_cons. by apply Hs.
Qed.

(** C5, at the failing input.  Sockets 1 and 3 are registered and
    open, and the [send] of socket 1 raises.  [notifySalesUpdate] ends
    in that error at socket 1, the first of the array: socket 3
    receives nothing, and the caller gets the exception.  The interval
    of the same socket, which wraps its [send] in [try]/[catch], logs
    the error and terminates the socket; after that a notification
    reaches socket 3. *)
Theorem notifySalesUpdate_stops_at_raising_send :
  let s := set_sockets <[1%nat := mkWebSocket OPEN true []]> example_server in
  let message :=
    stringify (JObj [("type", JStr "sales_update");
                     ("payload", JObj [("timestamp", JNum 1000)])]) in
  connections s = [1; 2; 3]%nat ∧ is_open 1 s = true ∧ is_open 3 s = true ∧
  (∃ s', notifySalesUpdate 1000 s = Threw s' ∧
         sent_of 1 s' = [] ∧ sent_of 3 s' = [] ∧ connections s' = connections s) ∧
  readyState_of 1 (onInterval 1 1000 s) = Some CLOSING ∧
  logs (onInterval 1 1000 s) = [LogError "Erro ao enviar ping"] ∧
  (∃ s', notifySalesUpdate 1000 (onInterval 1 1000 s) = Done s' ∧
         sent_of 3 s' = [message]).
Proof.
  cbv zeta.
  split; [by vm_compute|]. split; [by vm_compute|]. split; [by vm_compute|].
  split; [eexists; by vm_compute|].
  split; [by vm_compute|]. split; [by vm_compute|].
  eexists. by vm_compute.
Qed.


(** *** The registry holds a socket at most once *)

Lemma broadcast_loop_connections message clients :
  ∀ s, connections (state_of (broadcast_loop message clients s)) = connections s.
Proof.
  induction clients as [|client rest IH]; intros s; [done|].
  cbn [broadcast_loop]. destruct (is_open client s); [|apply IH].
  pose proof (send_frame client message s) as (Hc & _).
  destruct (send client message s) as [s'|s']; simpl in Hc.
  - by rewrite IH.
  - done.
Qed.

(** Each handler keeps the [connections] array free of repetitions,
    given that a connection event brings a socket not yet in it. *)
Lemma connections_NoDup_preserved parse w message now event s :
  NoDup (connections s) →
  (w ∉ connections s → NoDup (connections (state_of (onConnection w s)))) ∧
  NoDup (connections (onMessage parse w message now s)) ∧
  NoDup (connections (onClose w s)) ∧
  NoDup (connections (onInterval w now s)) ∧
  NoDup (connections (state_of (broadcastEvent event s))).
Proof.
  intros Hnd. repeat split.
  - intros Hfresh. unfold onConnection.
    set (s2 := set_connections _ _).
    pose proof (send_frame w (stringify (WSEvent_json welcomeEvent)) s2) as (Hc & _).
    assert (NoDup (connections s2)) as Hnd2.
    { unfold s2; simpl. apply NoDup_app. split; [done|].
      split; [|apply NoDup_singleton].
      intros x Hx ->%list_elem_of_singleton. done. }
    destruct (send w _ s2) as [s3|s3]; simpl in *; by rewrite Hc.
  - by rewrite (proj1 (onMessage_frame parse w message now s)).
  - unfold onClose; cbn [connections set_intervals log].
    destruct (indexOf w (connections s)) as [i|] eqn:Hi; [|done].
    destruct (indexOf_Some _ _ _ Hi) as (l1 & l2 & Hl & _ & Hsp).
    cbn [connections set_connections]. rewrite Hsp.
    rewrite Hl in Hnd. apply NoDup_app in Hnd as (Hnd1 & Hdisj & Hnd2).
    apply NoDup_cons in Hnd2 as [_ Hnd2].
    apply NoDup_app. split; [done|]. split; [|done].
    intros x Hx Hx2. apply (Hdisj x Hx). by right.
  - by rewrite onInterval_connections.
  - unfold broadcastEvent. by rewrite broadcast_loop_connections.
Qed.


(** *** Connecting, closing, failing probes, replies *)

Lemma indexOf_app_fresh w l :
  w ∉ l → indexOf w (l ++ [w]) = Some (length l).
Proof.
  induction l as [|x l IH]; simpl; intros Hnin.
  - by rewrite decide_True.
  - apply not_elem_of_cons in Hnin as [Hne Hnin].
    rewrite decide_False by congruence. by rewrite IH.
Qed.

Lemma splice1_last (w : nat) l : splice1 (length l) (l ++ [w]) = l.
Proof.
  unfold splice1. rewrite take_app_length.
  rewrite drop_ge; [by rewrite app_nil_r|]. rewrite length_app. simpl. lia.
Qed.

(** X1.  A connection event for an open socket that is not yet
    registered puts it last in the array, writes the welcome event to
    it and starts its interval; the close event that follows takes it
    out again, so that the array is as it was before the connection,
    and stops the interval. *)
Theorem connect_then_close_restores_registry (w : nat) (s : Server) (ws : WebSocket) :
  sockets s !! w = Some ws → readyState ws = OPEN → sendThrows ws = false →
  w ∉ connections s →
  ∃ s1, onConnection w s = Done s1 ∧
        connections s1 = connections s ++ [w] ∧
        w ∈ intervals s1 ∧
        sent_of w s1 = sent ws ++ [stringify (WSEvent_json welcomeEvent)] ∧
        timestamp welcomeEvent = None ∧
        connections (onClose w s1) = connections s ∧
        (w ∉ intervals (onClose w s1)).
Proof.
  intros Hw Hr Ht Hfresh. unfold onConnection.
  set (s2 := set_connections _ _).
  rewrite (send_open w _ s2 ws Hw Hr Ht).
  eexists. split; [reflexivity|].
  split; [reflexivity|].
  split; [cbn; set_solver|].
  split; [unfold sent_of; cbn; by rewrite lookup_insert_eq|].
  split; [reflexivity|].
  split; [|apply onClose_intervals].
  unfold onClose. cbn [connections set_intervals log set_sockets set_connections s2].
  rewrite (indexOf_app_fresh _ _ Hfresh).
  cbn [connections set_connections]. apply splice1_last.
Qed.

Lemma connect_then_close_restores_registry_witness :
  ∃ s1, onConnection 4 (set_sockets <[4%nat := mkWebSocket OPEN false []]> example_server)
          = Done s1 ∧
        connections s1 = [1; 2; 3; 4]%nat ∧
        connections (onClose 4 s1) = [1; 2; 3]%nat.
Proof.
  destruct (connect_then_close_restores_registry 4
              (set_sockets <[4%nat := mkWebSocket OPEN false []]> example_server)
              (mkWebSocket OPEN false []))
    as (s1 & Hrun & Hc & _ & _ & _ & Hclose & _).
  - by vm_compute.
  - reflexivity.
  - reflexivity.
  - compute_done.
  - exists s1. split; [exact Hrun|]. split; [exact Hc|exact Hclose].
Defined.

(** X2.  The close handler takes out one entry at most: for a socket
    that is not registered it leaves the array as it is, and, the
    array holding each socket once, a second close event changes
    nothing more. *)
Theorem close_twice_is_close_once (w : nat) (s : Server) :
  NoDup (connections s) →
  connections (onClose w (onClose w s)) = connections (onClose w s) ∧
  (w ∉ connections s → connections (onClose w s) = connections s) ∧
  (w ∈ connections s →
   S (length (connections (onClose w s))) = length (connections s)).
Proof.
  intros Hnd.
  assert (∀ s0, w ∉ connections s0 → connections (onClose w s0) = connections s0) as Hno.
  { intros s0 Hnin. unfold onClose; cbn [connections set_intervals log].
    destruct (indexOf w (connections s0)) as [i|] eqn:Hi; [|done].
    destruct (indexOf_Some _ _ _ Hi) as (l1 & l2 & Hl & _ & _).
    exfalso. apply Hnin. rewrite Hl, elem_of_app. right. by left. }
  split; [|split].
  - apply Hno. by apply onClose_connections.
  - apply Hno.
  - intros Hin. unfold onClose; cbn [connections set_intervals log].
    destruct (indexOf w (connections s)) as [i|] eqn:Hi.
    + destruct (indexOf_Some _ _ _ Hi) as (l1 & l2 & Hl & _ & Hsp).
      cbn [connections set_connections]. rewrite Hsp, Hl, !length_app. simpl. lia.
    + by apply indexOf_None in Hi.
Qed.

Lemma close_twice_is_close_once_witness :
  connections (onClose 2 (onClose 2 example_server)) = [1; 3]%nat ∧
  connections (onClose 9 example_server) = [1; 2; 3]%nat.
Proof.
  destruct (close_twice_is_close_once 2 example_server) as (H2 & _ & _);
    [compute_done|].
  destruct (close_twice_is_close_once 9 example_server) as (_ & H9 & _);
    [compute_done|].
  split.
  - rewrite H2. reflexivity.
  - apply H9. compute_done.
Defined.


Lemma is_open_false_lookup w s ws :
  sockets s !! w = Some ws → readyState ws ≠ OPEN → is_open w s = false.
Proof.
  intros Hw Hr. destruct (is_open w s) eqn:Hop; [|done].
  apply is_open_lookup in Hop as (ws' & Hw' & Hr'). congruence.
Qed.

(** A broadcast writes nothing to a socket that is not open. *)
Lemma broadcast_loop_skips_not_open message clients w :
  ∀ s, is_open w s = false →
       sockets (state_of (broadcast_loop message clients s)) !! w = sockets s !! w.
Proof.
  induction clients as [|client rest IH]; intros s Hw; [done|].
  cbn [broadcast_loop]. destruct (is_open client s) eqn:Hc; [|by apply IH].
  assert (client ≠ w) as Hne by congruence.
  pose proof (send_frame client message s) as (_ & _ & _ & Hr & Hs).
  destruct (send client message s) as [s'|s']; simpl in *.
  - rewrite IH; [by apply Hs|].
    unfold is_open in *. by rewrite Hr.
  - by apply Hs.
Qed.

(** X3.  When the probe of an open connection cannot be sent, the
    firing logs the error, terminates the socket and stops the
    interval, so that no further probe is ever sent; the connection
    stays in the array, where broadcasts pass it over, until its close
    event removes it. *)
Theorem failed_probe_terminates_socket (w : nat) (now : Z) (s : Server) (ws : WebSocket) :
  sockets s !! w = Some ws → readyState ws = OPEN → sendThrows ws = true →
  let s' := onInterval w now s in
  readyState_of w s' = Some CLOSING ∧
  sent_of w s' = sent ws ∧
  logs s' = logs s ++ [LogError "Erro ao enviar ping"] ∧
  connections s' = connections s ∧
  (w ∉ intervals s') ∧
  (∀ t n, fireIntervals w t n s' = s') ∧
  (∀ event, sent_of w (state_of (broadcastEvent event s')) = sent ws).
Proof.
  intros Hw Hr Ht.
  assert (onInterval w now s =
          set_intervals (λ i, i ∖ {[w]})
            (set_sockets <[w := mkWebSocket CLOSING true (sent ws)]>
               (log (LogError "Erro ao enviar ping") s))) as Hrun.
  { unfold onInterval.
    assert (is_open w s = true) as -> by (apply is_open_lookup; eauto).
    unfold send. rewrite Hw, Ht. unfold terminate. cbn [sockets log].
    rewrite Hw, Hr, Ht.
    set (s1 := set_sockets _ _).
    assert (is_open w s1 = false) as ->; [|done].
    eapply is_open_false_lookup; [apply lookup_insert_eq|done]. }
  cbv zeta. rewrite Hrun.
  set (s' := set_intervals _ _).
  assert (w ∉ intervals s') as Hni.
  { unfold s'; cbn. rewrite not_elem_of_difference. right. by apply elem_of_singleton. }
  assert (sockets s' !! w = Some (mkWebSocket CLOSING true (sent ws))) as Hw'
    by apply lookup_insert_eq.
  split; [unfold readyState_of; by rewrite Hw'|].
  split; [unfold sent_of; by rewrite Hw'|].
  split; [done|]. split; [done|]. split; [done|].
  split.
  - intros t [|n]; [done|]. cbn [fireIntervals]. by rewrite decide_False.
  - intros event. unfold broadcastEvent, sent_of.
    rewrite broadcast_loop_skips_not_open.
    + cbn [sockets log]. by rewrite Hw'.
    + eapply is_open_false_lookup; [exact Hw'|done].
Qed.

Lemma failed_probe_terminates_socket_witness :
  let s := set_sockets <[1%nat := mkWebSocket OPEN true []]> example_server in
  readyState_of 1 (onInterval 1 15000 s) = Some CLOSING ∧
  connections (onInterval 1 15000 s) = [1; 2; 3]%nat ∧
  sent_of 1 (state_of (notifySalesUpdate 16000 (onInterval 1 15000 s))) = [].
Proof.
  cbv zeta.
  destruct (failed_probe_terminates_socket 1 15000
              (set_sockets <[1%nat := mkWebSocket OPEN true []]> example_server)
              (mkWebSocket OPEN true []))
    as (Hr & _ & _ & Hc & _ & _ & Hb).
  - by vm_compute.
  - reflexivity.
  - reflexivity.
  - split; [exact Hr|]. split; [exact Hc|]. apply Hb.
Defined.

(** X4.  A message that parses to an object whose [type] is [ping],
    arriving on an open connection whose [send] works, is answered with
    exactly one [pong] event stamped with the time of the reply, on
    that connection only; the registry is left as it is. *)
Theorem ping_is_answered_with_pong (parse : string → option json) (w : nat)
    (message : string) (now : Z) (s : Server) (ws : WebSocket)
    (fields : list (string * json)) :
  parse message = Some (JObj fields) →
  obj_get "type" fields = Some (JStr "ping") →
  sockets s !! w = Some ws → readyState ws = OPEN → sendThrows ws = false →
  let s' := onMessage parse w message now s in
  sent_of w s' =
    sent ws ++
    [stringify (JObj [("type", JStr "pong");
                      ("payload", JObj [("message", JStr "Pong resposta ao ping")]);
                      ("timestamp", JNum now)])] ∧
  (∀ w', w' ≠ w → sockets s' !! w' = sockets s !! w') ∧
  connections s' = connections s ∧
  logs s' = logs s ++ [LogInfo "Mensagem recebida: ping"].
Proof.
  intros Hp Hget Hw Hr Ht. cbv zeta. unfold onMessage.
  rewrite Hp. cbn [event_type]. rewrite Hget. cbn [is_ping String.eqb].
  replace (String.eqb "ping" "ping") with true by reflexivity.
  set (s1 := log _ s).
  rewrite (send_open w _ s1 ws Hw Hr Ht).
  split; [unfold sent_of; cbn; by rewrite lookup_insert_eq|].
  split; [intros w' Hne; cbn; by rewrite lookup_insert_ne|].
  done.
Qed.

Lemma ping_is_answered_with_pong_witness :
  length (sent_of 1 (onMessage parse_ping_only 1
                       (stringify (JObj [("type", JStr "ping")])) 1000 example_server))
  = 1%nat.
Proof.
  destruct (ping_is_answered_with_pong parse_ping_only 1
              (stringify (JObj [("type", JStr "ping")])) 1000 example_server
              (mkWebSocket OPEN false []) [("type", JStr "ping")]
              eq_refl eq_refl eq_refl eq_refl eq_refl) as (-> & _).
  reflexivity.
Defined.


(** One broadcast, for any event: what each socket holds afterwards. *)
Lemma broadcastEvent_delivery (event : WSEvent) (s : Server) :
  NoDup (connections s) →
  (∀ w ws, w ∈ connections s → sockets s !! w = Some ws → sendThrows ws = false) →
  ∃ s', broadcastEvent event s = Done s' ∧
        connections s' = connections s ∧
        intervals s' = intervals s ∧
        logs s' = logs s ++
                  [LogInfo ("Broadcast de evento: " +:+ WSEventType_name (type event))] ∧
        (∀ w, readyState_of w s' = readyState_of w s) ∧
        (∀ w ws, sockets s' !! w = Some ws → ∃ ws0, sockets s !! w = Some ws0 ∧
                                                   sendThrows ws = sendThrows ws0) ∧
        ∀ w, sent_of w s' =
             if is_open w s && bool_decide (w ∈ connections s)
             then sent_of w s ++ [stringify (WSEvent_json event)]
             else sent_of w s.
Proof.
  intros Hnd Hok. unfold broadcastEvent.
  set (message := stringify _). set (s1 := log _ s).
  destruct (broadcast_loop_spec message (connections s1) s1)
    as (s' & Hrun & Hc & Hi & Hl & Hs); [exact Hok|].
  change (sockets s1) with (sockets s) in Hs.
  change (connections s1) with (connections s) in *.
  exists s'. split; [exact Hrun|]. split; [exact Hc|]. split; [exact Hi|].
  split; [exact Hl|].
  split.
  { intros w. unfold readyState_of. rewrite Hs.
    destruct (sockets s !! w) as [ws|]; simpl; [|done].
    unfold deliver. by destruct (readyState ws) eqn:Hr; simpl; rewrite ?Hr. }
  split.
  { intros w ws. rewrite Hs.
    destruct (sockets s !! w) as [ws0|]; simpl; [|done].
    intros [= <-]. exists ws0. split; [done|].
    unfold deliver. by destruct (readyState ws0). }
  intros w. unfold sent_of at 1. rewrite Hs.
  destruct (is_open w s) eqn:Hop; simpl.
  - apply is_open_lookup in Hop as (ws & Hws & Hr).
    unfold sent_of. rewrite Hws. simpl. unfold deliver. rewrite Hr. simpl.
    case_bool_decide as Hin.
    + apply list_elem_of_In in Hin. apply NoDup_ListNoDup in Hnd.
      by rewrite (proj1 (NoDup_count_occ' Nat.eq_dec (connections s)) Hnd w Hin).
    + rewrite list_elem_of_In in Hin.
      apply (count_occ_not_In Nat.eq_dec) in Hin. rewrite Hin.
      simpl. by rewrite app_nil_r.
  - unfold sent_of. destruct (sockets s !! w) as [ws|] eqn:Hws; simpl; [|done].
    unfold deliver. destruct (readyState ws) eqn:Hr; try done.
    assert (is_open w s = true) by (apply is_open_lookup; eauto). congruence.
Qed.

(** X5.  Two notifications in a row, none of whose [send]s raises:
    every registered open connection receives both texts, in the order
    of the calls, after what it had received before; the other sockets
    receive nothing; the array of connections and the socket states
    stay as they are. *)
Theorem notifications_arrive_in_order (t1 t2 : Z) (s : Server) :
  NoDup (connections s) →
  (∀ w ws, w ∈ connections s → sockets s !! w = Some ws → sendThrows ws = false) →
  ∃ s1 s2,
    notifySalesUpdate t1 s = Done s1 ∧ notifySalesUpdate t2 s1 = Done s2 ∧
    connections s2 = connections s ∧
    (∀ w, readyState_of w s2 = readyState_of w s) ∧
    ∀ w, sent_of w s2 =
         if is_open w s && bool_decide (w ∈ connections s)
         then sent_of w s ++
              [stringify (JObj [("type", JStr "sales_update");
                                ("payload", JObj [("timestamp", JNum t1)])]);
               stringify (JObj [("type", JStr "sales_update");
                                ("payload", JObj [("timestamp", JNum t2)])])]
         else sent_of w s.
Proof.
  intros Hnd Hok. unfold notifySalesUpdate.
  destruct (broadcastEvent_delivery (salesUpdateEvent t1) s Hnd Hok)
    as (s1 & Hrun1 & Hc1 & _ & _ & Hr1 & Ht1 & Hs1).
  destruct (broadcastEvent_delivery (salesUpdateEvent t2) s1)
    as (s2 & Hrun2 & Hc2 & _ & _ & Hr2 & _ & Hs2).
  { by rewrite Hc1. }
  { intros w ws Hin Hw. destruct (Ht1 w ws Hw) as (ws0 & Hw0 & ->).
    apply (Hok w ws0); [by rewrite <- Hc1|done]. }
  exists s1, s2. split; [done|]. split; [done|].
  split; [by rewrite Hc2|].
  split; [intros w; by rewrite Hr2|].
  intros w. rewrite Hs2, Hs1, Hc1.
  assert (is_open w s1 = is_open w s) as -> by (unfold is_open; by rewrite Hr1).
  destruct (is_open w s && bool_decide (w ∈ connections s)); [|done].
  by rewrite <- app_assoc.
Qed.

Lemma notifications_arrive_in_order_witness :
  ∃ s1 s2,
    notifySalesUpdate 5 example_server = Done s1 ∧
    notifySalesUpdate 6 s1 = Done s2 ∧
    length (sent_of 1 s2) = 2%nat ∧ sent_of 2 s2 = [] ∧
    nth 0 (sent_of 3 s2) "" ≠ nth 1 (sent_of 3 s2) "".
Proof.
  destruct (notifications_arrive_in_order 5 6 example_server)
    as (s1 & s2 & H1 & H2 & _ & _ & Hs).
  - compute_done.
  - intros w ws Hin.
    repeat (apply elem_of_cons in Hin as [->|Hin]);
      [vm_compute; by intros [= <-].. | by apply elem_of_nil in Hin].
  - exists s1, s2. split; [exact H1|]. split; [exact H2|].
    rewrite (Hs 1%nat), (Hs 2%nat), (Hs 3%nat). by vm_compute.
Defined.


(** *** What every run keeps *)

Lemma is_Some_readyState_of w s :
  is_Some (readyState_of w s) ↔ is_Some (sockets s !! w).
Proof. unfold readyState_of. by rewrite fmap_is_Some. Qed.

Lemma terminate_readyState_dom w s w' :
  is_Some (sockets (terminate w s) !! w') ↔ is_Some (sockets s !! w').
Proof.
  unfold terminate. destruct (sockets s !! w) as [ws|] eqn:Hw; [|done].
  destruct (readyState ws); try done; cbn [sockets set_sockets];
    (destruct (decide (w = w')) as [<-|Hne];
     [rewrite lookup_insert_eq, Hw; by split; eauto
     |by rewrite lookup_insert_ne]).
Qed.

Lemma broadcast_loop_frame message clients :
  ∀ s, let s' := state_of (broadcast_loop message clients s) in
       connections s' = connections s ∧ intervals s' = intervals s ∧
       ∀ w, readyState_of w s' = readyState_of w s.
Proof.
  induction clients as [|client rest IH]; intros s; [done|].
  cbn [broadcast_loop]. destruct (is_open client s); [|apply IH].
  pose proof (send_frame client message s) as (Hc & Hi & _ & Hr & _).
  destruct (send client message s) as [s1|s1]; simpl in *; [|done].
  destruct (IH s1) as (Hc' & Hi' & Hr'). cbv zeta in *.
  split; [congruence|]. split; [congruence|]. intros w. by rewrite Hr'.
Qed.

Lemma onInterval_frame w now s :
  intervals (onInterval w now s) ⊆ intervals s ∧
  ∀ w', is_Some (sockets (onInterval w now s) !! w') ↔ is_Some (sockets s !! w').
Proof.
  unfold onInterval.
  set (s1 := if is_open w s then _ else s).
  assert (intervals s1 = intervals s ∧
          ∀ w', is_Some (sockets s1 !! w') ↔ is_Some (sockets s !! w')) as [Hi Hd].
  { unfold s1. destruct (is_open w s); [|done].
    pose proof (send_frame w (stringify (WSEvent_json (periodicPingEvent now))) s)
      as (_ & Hi & _ & Hr & _).
    destruct (send w _ s) as [s'|s']; simpl in Hi, Hr.
    - split; [done|]. intros w'. by rewrite <- !is_Some_readyState_of, Hr.
    - split; [by rewrite (proj1 (proj2 (terminate_frame w _)))|].
      intros w'. rewrite terminate_readyState_dom. cbn [sockets log].
      by rewrite <- !is_Some_readyState_of, Hr. }
  destruct (is_open w s1); cbn [intervals set_intervals sockets]; rewrite ?Hi.
  - done.
  - split; [|done]. intros x [Hx _]%elem_of_difference. done.
Qed.

Lemma onClose_intervals_eq w s : intervals (onClose w s) = intervals s ∖ {[w]}.
Proof. unfold onClose. by destruct (indexOf w (connections s)). Qed.

Lemma onClose_sockets w s : sockets (onClose w s) = sockets s.
Proof. unfold onClose. by destruct (indexOf w (connections s)). Qed.

Lemma dispatch_keeps_registryInvariant parse e r :
  registryInvariant r → registryInvariant (dispatch parse e r).
Proof.
  destruct r as [s ls]. intros (Hnd & Hint & Hdom). cbn [server listening] in *.
  destruct e as [w throws|w message now|w|w now|event|w state throws];
    cbn [dispatch server listening].
  - destruct (sockets s !! w) as [ws|] eqn:Hw; [done|].
    assert (w ∉ connections s) as Hfresh.
    { intros Hin. destruct (Hdom w (or_introl Hin)) as [ws Hws]. congruence. }
    unfold onConnection.
    set (s0 := set_sockets _ s). set (s2 := set_connections _ _).
    pose proof (send_frame w (stringify (WSEvent_json welcomeEvent)) s2)
      as (Hc & Hi & _ & Hr & _).
    assert (NoDup (connections s2)) as Hnd2.
    { unfold s2, s0; cbn. apply NoDup_app. split; [done|].
      split; [|apply NoDup_singleton]. by intros x Hx ->%list_elem_of_singleton. }
    assert (∀ x, x ∈ intervals s2 → x ∈ connections s2 ∧ x ∈ ls) as Hint2.
    { unfold s2, s0; cbn. intros x Hx. destruct (Hint x Hx) as [H1 H2].
      split; [|done]. apply elem_of_app. by left. }
    assert (∀ x, x ∈ connections s2 ∨ x ∈ ls ∨ x = w → is_Some (sockets s2 !! x))
      as Hdom2.
    { unfold s2, s0; cbn. intros x Hx.
      destruct (decide (w = x)) as [<-|Hne]; [by rewrite lookup_insert_eq|].
      rewrite lookup_insert_ne by done. apply Hdom.
      destruct Hx as [[Hx| ->%list_elem_of_singleton]%elem_of_app|[Hx| ->]];
        by eauto. }
    assert (w ∈ connections s2) as Hw2.
    { unfold s2; cbn. apply elem_of_app. right. by left. }
    destruct (send w _ s2) as [s3|s3]; simpl in Hc, Hi, Hr;
      unfold registryInvariant;
      cbn [server listening state_of connections intervals sockets set_intervals];
      rewrite ?Hc, ?Hi.
    + split; [done|]. split.
      * intros x [->%elem_of_singleton|Hx]%elem_of_union.
        -- split; [done|]. apply elem_of_union. left. by apply elem_of_singleton.
        -- destruct (Hint2 x Hx) as [H1 H2]. split; [done|].
           apply elem_of_union. by right.
      * intros x Hx. rewrite <- is_Some_readyState_of, Hr, is_Some_readyState_of.
        apply Hdom2.
        destruct Hx as [Hx|[->%elem_of_singleton|Hx]%elem_of_union]; by eauto.
    + split; [done|]. split; [done|].
      intros x Hx. rewrite <- is_Some_readyState_of, Hr, is_Some_readyState_of.
      apply Hdom2. destruct Hx; by eauto.
  - destruct (decide (w ∈ ls)); [|done].
    destruct (onMessage_frame parse w message now s) as (Hc & Hi & Hr & _).
    unfold registryInvariant; cbn [server listening].
    rewrite Hc, Hi. split; [done|]. split; [done|].
    intros x Hx. rewrite <- is_Some_readyState_of, Hr, is_Some_readyState_of.
    by apply Hdom.
  - destruct (decide (w ∈ ls)); [|done].
    destruct (onClose_connections w s Hnd) as [Hrm Hkeep].
    destruct (connections_NoDup_preserved parse w "" 0 (mkWSEvent ping None None) s Hnd)
      as (_ & _ & Hnd' & _).
    unfold registryInvariant; cbn [server listening].
    split; [done|]. split.
    + intros x Hx. rewrite onClose_intervals_eq in Hx.
      apply elem_of_difference in Hx as [Hx Hne].
      destruct (Hint x Hx) as [H1 H2]. split; [|done].
      apply Hkeep; [|done]. intros ->. apply Hne. by apply elem_of_singleton.
    + intros x Hx. rewrite onClose_sockets. apply Hdom.
      destruct Hx as [Hx|Hx]; [|by right].
      destruct (decide (x = w)) as [->|Hne]; [done|].
      left. by apply Hkeep in Hx.
  - destruct (decide (w ∈ intervals s)); [|done].
    destruct (onInterval_frame w now s) as [Hi Hd].
    unfold registryInvariant; cbn [server listening].
    rewrite onInterval_connections.
    split; [done|]. split.
    + intros x Hx. apply Hint. by apply Hi.
    + intros x Hx. rewrite Hd. by apply Hdom.
  - unfold broadcastEvent.
    destruct (broadcast_loop_frame (stringify (WSEvent_json event))
                (connections s)
                (log (LogInfo ("Broadcast de evento: " +:+ WSEventType_name (type event))) s))
      as (Hc & Hi & Hr).
    cbn [connections log] in Hc, Hi. cbn [connections log].
    unfold registryInvariant; cbn [server listening].
    rewrite Hc, Hi. split; [done|]. split; [done|].
    intros x Hx. rewrite <- is_Some_readyState_of, Hr, is_Some_readyState_of.
    by apply Hdom.
  - destruct (sockets s !! w) as [ws|] eqn:Hw; [|done].
    unfold registryInvariant; cbn. split; [done|]. split; [done|].
    intros x Hx. destruct (decide (w = x)) as [<-|Hne].
    + by rewrite lookup_insert_eq.
    + rewrite lookup_insert_ne by done. by apply Hdom.
Qed.

Lemma runEvents_keeps_registryInvariant parse events :
  ∀ r, registryInvariant r → registryInvariant (runEvents parse events r).
Proof.
  unfold runEvents. induction events as [|e events IH]; intros r Hr; [done|].
  simpl. apply IH. by apply dispatch_keeps_registryInvariant.
Qed.

(** A registered socket without handlers stays as it is, whatever the
    next event. *)
Lemma dispatch_keeps_socket_without_handlers parse e r w :
  registryInvariant r →
  w ∈ connections (server r) → w ∉ listening r →
  w ∈ connections (server (dispatch parse e r)) ∧ w ∉ listening (dispatch parse e r).
Proof.
  destruct r as [s ls]. intros (Hnd & Hint & Hdom) Hin Hnl. cbn [server listening] in *.
  destruct e as [w' throws|w' message now|w'|w' now|event|w' state throws];
    cbn [dispatch server listening].
  - destruct (sockets s !! w') as [ws|] eqn:Hw; [done|].
    assert (w' ≠ w) as Hne.
    { intros ->. destruct (Hdom w (or_introl Hin)) as [ws Hws]. congruence. }
    unfold onConnection.
    set (s2 := set_connections _ _).
    pose proof (send_frame w' (stringify (WSEvent_json welcomeEvent)) s2) as (Hc & _).
    assert (w ∈ connections s2) as Hin2.
    { unfold s2; cbn. apply elem_of_app. by left. }
    destruct (send w' _ s2) as [s3|s3]; simpl in Hc;
      cbn [server listening connections set_intervals]; rewrite Hc.
    + split; [done|]. rewrite not_elem_of_union. split; [|done].
      intros Hx%elem_of_singleton. done.
    + done.
  - destruct (decide (w' ∈ ls)); [|done]. cbn [server listening].
    by rewrite (proj1 (onMessage_frame parse w' message now s)).
  - destruct (decide (w' ∈ ls)) as [Hl|]; [|done]. cbn [server listening].
    split; [|done].
    apply (proj2 (onClose_connections w' s Hnd)); [|done]. by intros ->.
  - destruct (decide (w' ∈ intervals s)); [|done]. cbn [server listening].
    by rewrite onInterval_connections.
  - cbn [server listening]. unfold broadcastEvent.
    by rewrite broadcast_loop_connections.
  - by destruct (sockets s !! w').
Qed.

(** X26.  In every state that the server reaches from its start,
    whatever connects, arrives, closes, fires or is broadcast, and
    whatever [JSON.parse] does: no socket is in the array of
    connections twice, and an interval runs only for a socket that is
    in the array and has its handlers.  The close event of a socket
    that has its handlers leaves neither the socket nor an interval of
    it.  A socket whose welcome event could not be sent has no
    handlers: it stays in the array, without an interval, whatever
    happens afterwards, its own close event included. *)
Theorem registry_invariant_of_every_run (parse : string → option json)
    (events : list Event) (w : nat) :
  let r := runEvents parse events emptyRuntime in
  let closed := server (dispatch parse (Closed w) r) in
  NoDup (connections (server r)) ∧
  (∀ w', w' ∈ intervals (server r) → w' ∈ connections (server r) ∧ w' ∈ listening r) ∧
  (w ∈ listening r → (w ∉ connections closed) ∧ (w ∉ intervals closed)) ∧
  (sockets (server r) !! w = None →
   let r1 := dispatch parse (Connected w true) r in
   w ∈ connections (server r1) ∧
   ∀ later, w ∈ connections (server (runEvents parse later r1)) ∧
            (w ∉ intervals (server (runEvents parse later r1)))).
Proof.
  cbv zeta.
  pose proof (runEvents_keeps_registryInvariant parse events emptyRuntime) as Hinv.
  destruct Hinv as (Hnd & Hint & Hdom).
  { unfold registryInvariant, emptyRuntime, emptyServer; cbn. split; [constructor|].
    split; [intros x Hx; by apply elem_of_empty in Hx|].
    intros x [Hx|Hx]; [by apply elem_of_nil in Hx|by apply elem_of_empty in Hx]. }
  set (r := runEvents parse events emptyRuntime) in *.
  split; [done|]. split; [done|]. split.
  - intros Hl. cbn [dispatch]. rewrite decide_True by done. cbn [server].
    split; [by apply onClose_connections|apply onClose_intervals].
  - intros Hnew.
    assert (registryInvariant (dispatch parse (Connected w true) r)) as Hinv1.
    { by apply dispatch_keeps_registryInvariant. }
    assert (w ∈ connections (server (dispatch parse (Connected w true) r)) ∧
            w ∉ listening (dispatch parse (Connected w true) r)) as [Hin1 Hnl1].
    { cbn [dispatch]. rewrite Hnew. unfold onConnection, send.
      cbn [sockets set_sockets set_connections log].
      rewrite lookup_insert_eq. cbn [sendThrows server listening connections].
      split; [apply elem_of_app; right; by left|].
      intros Hl. destruct (Hdom w (or_intror Hl)) as [ws Hws]. congruence. }
    split; [done|].
    set (r1 := dispatch parse (Connected w true) r) in *.
    assert (∀ later r', registryInvariant r' →
              w ∈ connections (server r') → w ∉ listening r' →
              w ∈ connections (server (runEvents parse later r')) ∧
              w ∉ listening (runEvents parse later r')) as Hrun.
    { unfold runEvents. induction later as [|e later IH]; intros r' Hr' Hc' Hl'; [done|].
      simpl. destruct (dispatch_keeps_socket_without_handlers parse e r' w Hr' Hc' Hl').
      apply IH; [by apply dispatch_keeps_registryInvariant|done..]. }
    intros later. destruct (Hrun later r1 Hinv1 Hin1 Hnl1) as [Hc Hl].
    split; [done|]. intros Hi.
    destruct (runEvents_keeps_registryInvariant parse later r1 Hinv1) as (_ & Hint' & _).
    by destruct (Hint' w Hi).
Qed.

Example run_of_three_events :
  let r := runEvents parse_ping_only
             [Connected 1 false; Connected 2 false; Connected 1 true;
              IntervalFired 1 15000; Closed 2; Broadcast (salesUpdateEvent 16000)]
             emptyRuntime in
  connections (server r) = [1%nat] ∧ length (sent_of 1 (server r)) = 3%nat ∧
  length (sent_of 2 (server r)) = 1%nat.
Proof. by vm_compute. Qed.

(** The close event of a socket whose welcome event could not be sent
    finds no handler. *)
Example welcome_failure_leaves_socket_registered :
  let r := runEvents parse_ping_only [Connected 1 true; Closed 1] emptyRuntime in
  connections (server r) = [1%nat] ∧ listening r = ∅ ∧ intervals (server r) = ∅.
Proof. by vm_compute. Qed.

End WebsocketFacts.

(** ** The execution-type mutation *)

Module ExecutionTypeFacts.
Import ExecutionType.

(** With no service type selected the mutation raises before anything
    is sent. *)
Lemma missing_service_type_sends_nothing (d : Dialog) (env : Env) :
  falsy_id (saleId d) = false →
  falsy_id (selectedServiceTypeId d) = true →
  mutationFn d env = ([], Thrown "É necessário selecionar um tipo de execução").
Proof. intros Hs Ht. unfold mutationFn. by rewrite Hs, Ht. Qed.

(** With the partner option on and no provider selected the mutation
    raises too, but only after the service-type POST was sent and
    answered. *)
Lemma missing_provider_raises_after_post (d : Dialog) (env : Env) :
  falsy_id (saleId d) = false →
  falsy_id (selectedServiceTypeId d) = false →
  ok (postResponse env) = true →
  hasPrestadorParceiro d = true →
  selectedServiceProviderIds d = [] →
  mutationFn d env =
    ([PostUpdateExecutionType (id_value (saleId d))
        (id_value (selectedServiceTypeId d)) true],
     Thrown "É necessário selecionar pelo menos um prestador parceiro").
Proof.
  intros Hs Ht Hok Hp Hids. unfold mutationFn.
  by rewrite Hs, Ht, Hok, Hp, Hids.
Qed.

(** C1, at the failing input.  Sale 1, service type 5 selected, partner
    option on, no provider selected, server accepting the POST: the run
    ends in the missing-provider error, yet the service type of the
    order has already been changed on the server. *)
Theorem provider_check_runs_after_service_type_post :
  let d := mkDialog (Some 1%nat) (Some 5%nat) true [] [] in
  let env := mkEnv (mkResponse true None) None in
  mutationFn d env =
    ([PostUpdateExecutionType 1 5 true],
     Thrown "É necessário selecionar pelo menos um prestador parceiro") ∧
  serviceType_after (fst (mutationFn d env)) None = Some 5%nat ∧
  serviceType_after (fst (mutationFn d env)) None ≠ None.
Proof. by vm_compute. Qed.


(** X6.  A run sends nothing exactly when the id of the sale or the
    id of the selected service type is missing or is the number 0 (an
    id of 0 counts as no selection); it then ends in the error that
    names the missing one, the sale first. *)
Theorem nothing_sent_iff_an_id_is_missing (d : Dialog) (env : Env) :
  ((mutationFn d env).1 = [] ↔
   (saleId d = None ∨ saleId d = Some 0%nat) ∨
   (selectedServiceTypeId d = None ∨ selectedServiceTypeId d = Some 0%nat)) ∧
  (saleId d = None ∨ saleId d = Some 0%nat →
   mutationFn d env = ([], Thrown "ID da venda não fornecido")) ∧
  (∀ sale, saleId d = Some (S sale) →
           selectedServiceTypeId d = None ∨ selectedServiceTypeId d = Some 0%nat →
           mutationFn d env = ([], Thrown "É necessário selecionar um tipo de execução")).
Proof.
  assert (∀ i, falsy_id i = true ↔ i = None ∨ i = Some 0%nat) as Hf.
  { intros [[|n]|]; simpl; split; try done; try (by eauto);
      intros [H|H]; discriminate. }
  split; [|split].
  - unfold mutationFn. rewrite <- !Hf.
    destruct (falsy_id (saleId d)); [by split; eauto|].
    destruct (falsy_id (selectedServiceTypeId d)); [by split; eauto|].
    destruct (negb _); [split; [done|by intros [?|?]]|].
    destruct (hasPrestadorParceiro d).
    + destruct (_ =? _)%nat; [split; [done|by intros [?|?]]|].
      unfold runProvidersMutation. destruct (providersMutation env);
        (split; [done|by intros [?|?]]).
    + destruct (_ <? _)%nat; [|split; [done|by intros [?|?]]].
      unfold runProvidersMutation. destruct (providersMutation env);
        (split; [done|by intros [?|?]]).
  - intros H%Hf. unfold mutationFn. by rewrite H.
  - intros sale Hs H%Hf. unfold mutationFn. by rewrite Hs, H.
Qed.

Lemma nothing_sent_iff_an_id_is_missing_witness :
  mutationFn (mkDialog (Some 1%nat) (Some 0%nat) true [4%nat] [])
    (mkEnv (mkResponse true None) None)
  = ([], Thrown "É necessário selecionar um tipo de execução").
Proof.
  destruct (nothing_sent_iff_an_id_is_missing
              (mkDialog (Some 1%nat) (Some 0%nat) true [4%nat] [])
              (mkEnv (mkResponse true None) None)) as (_ & _ & H).
  apply (H 0%nat); [reflexivity|by right].
Defined.

(** X7.  A run that resolves has passed every check and got every
    answer: both ids were present, the server accepted the service-type
    POST, which is the first thing sent; with the partner option on, at
    least one provider was selected and the provider update, sent
    right after, resolved; with the option off, the providers are
    cleared and updated exactly when the sale had some. *)
Theorem resolved_run_passed_every_check (d : Dialog) (env : Env) (effects : list Effect) :
  mutationFn d env = (effects, Resolved) →
  let post := PostUpdateExecutionType (id_value (saleId d))
                (id_value (selectedServiceTypeId d)) true in
  falsy_id (saleId d) = false ∧
  falsy_id (selectedServiceTypeId d) = false ∧
  ok (postResponse env) = true ∧
  (if hasPrestadorParceiro d
   then selectedServiceProviderIds d ≠ [] ∧ providersMutation env = None ∧
        effects = [post; UpdateServiceProviders true]
   else match saleServiceProviders d with
        | [] => effects = [post]
        | _ :: _ =>
            providersMutation env = None ∧
            effects = [post; SetSelectedServiceProviderIds []; UpdateServiceProviders true]
        end) ∧
  serviceType_after effects None = Some (id_value (selectedServiceTypeId d)).
Proof.
  unfold mutationFn.
  destruct (falsy_id (saleId d)); [done|].
  destruct (falsy_id (selectedServiceTypeId d)); [done|].
  destruct (ok (postResponse env)) eqn:Hok; simpl; [|done].
  unfold runProvidersMutation.
  destruct (hasPrestadorParceiro d).
  - destruct (selectedServiceProviderIds d) as [|p ps]; simpl; [done|].
    destruct (providersMutation env); [done|]. by intros [= <-].
  - destruct (saleServiceProviders d) as [|p ps]; simpl; [by intros [= <-]|].
    destruct (providersMutation env); [done|]. by intros [= <-].
Qed.

Lemma resolved_run_passed_every_check_witness :
  mutationFn (mkDialog (Some 1%nat) (Some 5%nat) false [] [8%nat])
    (mkEnv (mkResponse true None) None)
  = ([PostUpdateExecutionType 1 5 true; SetSelectedServiceProviderIds [];
      UpdateServiceProviders true], Resolved) ∧
  serviceType_after
    [PostUpdateExecutionType 1 5 true; SetSelectedServiceProviderIds [];
     UpdateServiceProviders true] None = Some 5%nat.
Proof.
  split; [reflexivity|].
  by destruct (resolved_run_passed_every_check
                 (mkDialog (Some 1%nat) (Some 5%nat) false [] [8%nat])
                 (mkEnv (mkResponse true None) None) _ eq_refl) as (_ & _ & _ & _ & H).
Defined.



End ExecutionTypeFacts.

(** ** The order store gateway *)

Module GatewayFacts.
Import Gateway.

Lemma selects_scope f scope o s :
  selects f scope o = true → scope = Some s → sellerId o = s.
Proof.
  intros Hsel ->. unfold selects in Hsel.
  apply andb_prop in Hsel as [_ Hscope].
  by apply bool_decide_eq_true in Hscope.
Qed.

(** Every row of a page was selected by the filter and the scope, and
    is an order of the store. *)
Lemma queryPage_rows store f s page pageSize scope o :
  o ∈ (queryPage store f s page pageSize scope).1 →
  o ∈ store ∧ selects f scope o = true.
Proof.
  unfold queryPage; cbn [fst].
  intros Hin.
  apply subseteq_take, subseteq_drop in Hin.
  rewrite merge_sort_Permutation in Hin.
  rename Hin into Hj.
  apply list_elem_of_filter in Hj as [Hsel Hstore]. done.
Qed.

(** C3.  In a page queried on behalf of a seller every order has that
    actor as its seller, whatever filter, seller filter included, the
    request carries: the scope is taken from the actor. *)
Theorem seller_page_holds_own_orders_only (actor : Actor) (store : list Order)
    (f : Filter) (s : Sort) (page pageSize : nat) :
  actorRole actor = seller →
  ∀ o, o ∈ (queryPageFor actor store f s page pageSize).1 →
       sellerId o = actorId actor ∧ o ∈ store.
Proof.
  intros Hrole o Hin. unfold queryPageFor in Hin.
  apply queryPage_rows in Hin as [Hstore Hsel].
  split; [|done].
  apply (selects_scope _ _ _ _ Hsel). unfold scopeOf. by rewrite Hrole.
Qed.

Lemma seller_page_holds_own_orders_only_witness :
  let page := (queryPageFor (mkActor 7 seller) example_store
                 (mkFilter None "" None None None) (mkSort by_date desc) 1 15).1 in
  map id page = [3; 1]%nat ∧ Forall (λ o, sellerId o = 7%nat) page.
Proof.
  cbv zeta. split; [by vm_compute|].
  apply Forall_forall. intros o Ho.
  by apply (seller_page_holds_own_orders_only (mkActor 7 seller) example_store
              (mkFilter None "" None None None) (mkSort by_date desc) 1 15 eq_refl o).
Defined.

(** A seller who asks for another seller's orders gets none. *)
Example seller_page_with_foreign_seller_filter :
  queryPageFor (mkActor 7 seller) example_store
    (mkFilter None "" None None (Some 8%nat)) (mkSort by_date desc) 1 15 = ([], 0%nat).
Proof. by vm_compute. Qed.

Lemma validateMarkPaid_accepts o role :
  validateMarkPaid o role = None ↔
  executionStatus o = completed ∧ financialStatus o = unpaid ∧
  (role = finance ∨ role = admin).
Proof.
  unfold validateMarkPaid. repeat case_bool_decide; split; try discriminate; tauto.
Qed.

Lemma applyMarkPaid_paid actor o :
  financialStatus o = paid → applyMarkPaid actor o = inr TransitionNotAllowed.
Proof.
  intros Hpaid. unfold applyMarkPaid, validateMarkPaid.
  rewrite bool_decide_eq_false_2; [done|]. intros [_ H]. congruence.
Qed.

End GatewayFacts.

(** ** The sales page *)

Module SalesPageFacts.
Import Json QueryClient SalesPage.

(** *** Invalidation of the order pages *)

Lemma KeyPart_eqb_eq a b : KeyPart_eqb a b = true → a = b.
Proof.
  destruct a, b; simpl; try discriminate; [| |done].
  - by intros ->%String.eqb_eq.
  - by intros ->%Z.eqb_eq.
Qed.

Lemma QueryKey_eqb_eq a b : QueryKey_eqb a b = true → a = b.
Proof.
  revert b. induction a as [|x a IH]; intros [|y b]; simpl; try done.
  intros [Hx Hab]%andb_prop. f_equal; [by apply KeyPart_eqb_eq|by apply IH].
Qed.

Section Invalidation.
Context {D : Type}.
Implicit Types (cache : list (Query D)) (q : Query D).

Lemma find_Some key cache q :
  find key cache = Some q → q ∈ cache ∧ queryKey q = key.
Proof.
  induction cache as [|q' cache IH]; simpl; [done|].
  destruct (QueryKey_eqb (queryKey q') key) eqn:Hk.
  - intros [= <-]. split; [by left|by apply QueryKey_eqb_eq].
  - intros [Hin Hkey]%IH. split; [by right|done].
Qed.

(** After [invalidateQueries] every entry under the filter key carries
    the invalidation flag. *)
Lemma invalidateQueries_flags filterKey cache q :
  q ∈ invalidateQueries filterKey cache →
  partialMatchKey (queryKey q) filterKey = true →
  isInvalidated q = true.
Proof.
  unfold invalidateQueries. rewrite list_elem_of_In, in_map_iff.
  intros (q0 & Hq & _) Hmatch.
  destruct (partialMatchKey (queryKey q0) filterKey) eqn:H0; subst q; [done|].
  congruence.
Qed.

(** Reading an entry that is missing or invalidated runs [queryFn]. *)
Lemma read_refetches staleTime now key (fresh : D) cache :
  (∀ q, find key cache = Some q → isInvalidated q = true) →
  read staleTime now key fresh cache =
    (fresh, true, store (mkQuery key fresh now false) cache).
Proof.
  intros Hinv. unfold read.
  destruct (find key cache) as [q|] eqn:Hf; [|done].
  unfold isStale. by rewrite (Hinv q eq_refl).
Qed.

(** Reading a fresh entry returns it and runs nothing. *)
Lemma read_fresh staleTime now key (fresh : D) cache q :
  find key cache = Some q → isInvalidated q = false →
  (now - dataUpdatedAt q < staleTime)%Z →
  read staleTime now key fresh cache = (data q, false, cache).
Proof.
  intros Hf Hi Hage. unfold read, isStale. rewrite Hf, Hi. simpl.
  by rewrite (proj2 (Z.leb_gt _ _) Hage).
Qed.

End Invalidation.

(** The key of every page query, whatever the user, page, size, filter
    and sort, lies under [["/api/sales"]]. *)
Lemma salesQueryKey_under_salesKey user st :
  partialMatchKey (salesQueryKey user st) salesKey = true.
Proof. reflexivity. Qed.

Lemma after_queryCache change c :
  queryCache (after change c) = invalidateQueries salesKey (queryCache c).
Proof.
  destruct change as [body|body|body|body|]; try reflexivity.
  simpl. unfold handleConfirmClearAllSales, clearAllSalesMutation, mutate; simpl.
  unfold clearAllSalesMutation_onSuccess. by destruct body.
Qed.

(** C4.  After each successful order mutation, and after each
    [sales_update] event received, every cached order page carries the
    invalidation flag, whatever the rest of its key; so the next read
    of any order page, at any time, runs the query again and settles on
    what the server answers, not on the value cached before. *)
Theorem order_pages_invalidated_after_change (change : Change) (c : Component)
    (user : option Auth.User) (st : State) (now : Z) (fresh : SalesData) :
  let c' := after change c in
  (∀ q, q ∈ queryCache c' →
        partialMatchKey (queryKey q) salesKey = true → isInvalidated q = true) ∧
  read salesStaleTime now (salesQueryKey user st) fresh (queryCache c') =
    (fresh, true,
     store (mkQuery (salesQueryKey user st) fresh now false) (queryCache c')).
Proof.
  cbv zeta. rewrite after_queryCache. split.
  - intros q. apply invalidateQueries_flags.
  - apply read_refetches. intros q [Hin Hkey]%find_Some.
    apply (invalidateQueries_flags _ _ _ Hin).
    rewrite Hkey. apply salesQueryKey_under_salesKey.
Qed.

Lemma order_pages_invalidated_after_change_witness :
  let key := salesQueryKey (Some example_user) (state example_component) in
  let fresh := mkSalesData [] 0 1 1 in
  (read salesStaleTime 2000 key fresh (queryCache example_component)).1.1 = example_page ∧
  (read salesStaleTime 2000 key fresh
     (queryCache (after (MarkedPaid JNull) example_component))).1.1 = fresh.
Proof.
  cbv zeta. split; [by vm_compute|].
  destruct (order_pages_invalidated_after_change (MarkedPaid JNull) example_component
              (Some example_user) (state example_component) 2000
              (mkSalesData [] 0 1 1)) as [_ ->].
  reflexivity.
Defined.


(** *** Filters and pagination *)

(** C9.  A change of the seller filter, of the date range or of the
    page size sets the page number to 1, whatever it was before; the
    page query that follows is keyed by page 1 and asks for page 1. *)
Theorem page_reset_on_filter_or_size_change (c : Component) (value : string)
    (range : option DateRange) (newSize : Z) (user : option Auth.User) :
  let reset (c' : Component) : Prop :=
    page (state c') = 1%Z ∧
    salesQueryKey user (state c') !! 2%nat = Some (KNum 1) ∧
    salesQueryParams user (state c') !! 0%nat = Some ("page", "1") in
  (reset (handleSellerFilterChange value c) ∧
   selectedSellerId (state (handleSellerFilterChange value c)) = value) ∧
  (reset (handleDateRangeChange range c) ∧
   dateRange (state (handleDateRangeChange range c)) = range) ∧
  (reset (onPageSizeChange newSize c) ∧
   limit (state (onPageSizeChange newSize c)) = newSize).
Proof. cbv zeta. repeat split. Qed.

Example page_reset_from_page_4 :
  page (state example_component) = 4%Z ∧
  page (state (handleSellerFilterChange "8" example_component)) = 1%Z ∧
  page (state (handleDateRangeChange None example_component)) = 1%Z ∧
  page (state (onPageSizeChange 50 example_component)) = 1%Z.
Proof. by vm_compute. Qed.

(** The request of the page query carries the seller picked in the
    filter, also for a [vendedor]; only without a pick does a
    [vendedor] send the own id.  The export queries always send it. *)
Lemma sellerIdParam_prefers_filter (u : Auth.User) (st : State) :
  nonempty (selectedSellerId st) = true → selectedSellerId st ≠ "all" →
  sellerIdParam (Some u) st = [("sellerId", selectedSellerId st)].
Proof.
  intros Hne Hall. unfold sellerIdParam. rewrite Hne.
  by rewrite (proj2 (String.eqb_neq _ _) Hall).
Qed.

Example vendedor_request_for_foreign_seller :
  sellerIdParam (Some example_user) (setSelectedSellerId "8" initialState)
    = [("sellerId", "8")] ∧
  sellerIdParam (Some example_user) initialState = [("sellerId", "7")] ∧
  exportSellerIdParam (Some example_user) = [("sellerId", "7")].
Proof. by vm_compute. Qed.


(** *** The two cache tiers *)

Lemma getFromLocalCache_within now key ls data timestamp :
  ls !! cacheItem key = Some (Entry data timestamp) →
  (now - timestamp ≤ localStorageCacheTime)%Z →
  getFromLocalCache now key ls = (Some data, ls).
Proof.
  intros Hls Hage. unfold getFromLocalCache. rewrite Hls.
  by rewrite (proj2 (Z.ltb_ge _ _) Hage).
Qed.

Lemma getFromLocalCache_expired now key ls data timestamp :
  ls !! cacheItem key = Some (Entry data timestamp) →
  (localStorageCacheTime < now - timestamp)%Z →
  getFromLocalCache now key ls = (None, delete (cacheItem key) ls).
Proof.
  intros Hls Hage. unfold getFromLocalCache. rewrite Hls.
  by rewrite (proj2 (Z.ltb_lt _ _) Hage).
Qed.

(** C7 (as amended).  The page query of the orders never touches the
    local cache and its results stay fresh in the query cache for
    30000 ms.  A reference query whose local-cache item is at most one
    hour old returns that item without a request; when the item is
    more than one hour old it is removed and the data are fetched (and,
    on an answer, saved again under the time of the save). *)
Theorem cache_tiers (r : Reference) (env : Browser) (ls : gmap string Stored)
    (data : json) (timestamp : Z) :
  ls !! cacheItem (Reference_key r) = Some (Entry data timestamp) →
  truthy data = true →
  localStorageCacheTime = 3600000%Z ∧
  salesStaleTime = 30000%Z ∧
  (∀ response c, localStorage (salesQueryFn response c).2 = localStorage c) ∧
  (∀ now key fresh (cache : list (Query SalesData)) q,
     find key cache = Some q → isInvalidated q = false →
     (now - dataUpdatedAt q < salesStaleTime)%Z →
     read salesStaleTime now key fresh cache = (QueryClient.data q, false, cache)) ∧
  (∀ response,
     (now env - timestamp ≤ 3600000)%Z →
     referenceQueryFn r env response ls = (Success data, false, ls)) ∧
  (∀ response,
     (3600000 < now env - timestamp)%Z →
     (getFromLocalCache (now env) (Reference_key r) ls).2 !! cacheItem (Reference_key r)
       = None ∧
     referenceQueryFn r env response ls =
       match response with
       | RespOk body =>
           (Success body, true,
            saveToLocalCache (savedAt env) (setItemThrows env) (Reference_key r) body
              (delete (cacheItem (Reference_key r)) ls))
       | RespError _ =>
           (Failure (Reference_error r), true, delete (cacheItem (Reference_key r)) ls)
       end).
Proof.
  intros Hls Htruthy.
  split; [reflexivity|]. split; [reflexivity|].
  split; [by intros [body|message] c|].
  split; [intros now key fresh cache q; apply read_fresh|].
  split.
  - intros response Hage. unfold referenceQueryFn.
    rewrite (getFromLocalCache_within _ _ _ _ _ Hls Hage). by rewrite Htruthy.
  - intros response Hage. unfold referenceQueryFn.
    rewrite (getFromLocalCache_expired _ _ _ _ _ Hls Hage). cbn [snd].
    split; [apply lookup_delete_eq|]. by destruct response.
Qed.

Lemma cache_tiers_witness :
  referenceQueryFn customers (mkBrowser 1800000 1800005 false) (RespOk (JArr []))
    (localStorage example_component)
  = (Success (JArr [JObj [("id", JNum 3)]]), false, localStorage example_component) ∧
  (referenceQueryFn customers (mkBrowser 3600001 3600005 false) (RespOk (JArr []))
     (localStorage example_component)).1 = (Success (JArr []), true).
Proof.
  destruct (cache_tiers customers (mkBrowser 1800000 1800005 false)
              (localStorage example_component) (JArr [JObj [("id", JNum 3)]]) 0
              eq_refl eq_refl) as (_ & _ & _ & _ & Hin & _).
  destruct (cache_tiers customers (mkBrowser 3600001 3600005 false)
              (localStorage example_component) (JArr [JObj [("id", JNum 3)]]) 0
              eq_refl eq_refl) as (_ & _ & _ & _ & _ & Hout).
  split.
  - apply Hin. simpl. lia.
  - destruct (Hout (RespOk (JArr []))) as [_ ->]; [simpl; lia|]. reflexivity.
Defined.

(** C7, the claim as worded: an item that is exactly one hour old, so
    at least one hour old, is still served from the local cache: it is
    neither removed nor fetched again. *)
Lemma item_one_hour_old_still_served :
  let env := mkBrowser 3600000 3600005 false in
  let ls := localStorage example_component in
  ls !! cacheItem "customers" = Some (Entry (JArr [JObj [("id", JNum 3)]]) 0) ∧
  (now env - 0 = 60 * 60 * 1000)%Z ∧
  referenceQueryFn customers env (RespOk (JArr [])) ls
    = (Success (JArr [JObj [("id", JNum 3)]]), false, ls) ∧
  (getFromLocalCache (now env) "customers" ls).2 !! cacheItem "customers"
    = Some (Entry (JArr [JObj [("id", JNum 3)]]) 0).
Proof. by vm_compute. Qed.


(** *** Action gates *)

Lemma role_is_true user r :
  Auth.role_is user r = true ↔ ∃ u, user = Some u ∧ Auth.role u = r.
Proof.
  destruct user as [u|]; simpl.
  - rewrite String.eqb_eq. split; [eauto|]. by intros (u' & [= <-] & H).
  - split; [done|]. by intros (u' & H & _).
Qed.

(** C8 (as amended).  The button of the bulk purge is shown to the
    roles [admin] and [operacional] and to no other; when the request
    succeeds the mutation yields the body of the answer, the order
    pages are invalidated, and the [count] of the body is reported as
    the number of removed sales. *)
Theorem clear_sales_gate_and_count (user : option Auth.User) (n : Z) (c : Component) :
  (clearSalesButton user = true ↔
   ∃ u, user = Some u ∧ (Auth.role u = "admin" ∨ Auth.role u = "operacional")) ∧
  (∀ body : json, requestFn "Erro ao limpar vendas" (RespOk body) = Success body) ∧
  toasts (handleConfirmClearAllSales (RespOk (JObj [("count", JNum n)])) c) =
    toasts c ++
    [mkToast "Vendas removidas"
       ("Foram removidas " +:+ pretty n +:+ " vendas do sistema") None] ∧
  queryCache (handleConfirmClearAllSales (RespOk (JObj [("count", JNum n)])) c) =
    invalidateQueries salesKey (queryCache c).
Proof.
  split; [|by repeat split].
  unfold clearSalesButton. rewrite orb_true_iff, !role_is_true.
  split.
  - intros [(u & -> & H)|(u & -> & H)]; eauto.
  - intros (u & -> & [H|H]); eauto.
Qed.

(** The answer [null] to the purge: the order pages are invalidated,
    the reading of [data.count] raises, and the error toast of the
    mutation is shown. *)
Example clear_all_with_null_body :
  let c' := handleConfirmClearAllSales (RespOk JNull) example_component in
  toasts c' = [mkToast "Erro ao limpar vendas"
                 "Cannot read properties of null (reading 'count')"
                 (Some "destructive")] ∧
  queryCache c' = invalidateQueries salesKey (queryCache example_component).
Proof. by vm_compute. Qed.

(** C8, the claim as worded: a user of role [operacional] is shown the
    button too, and confirming the dialog sends the request; with the
    answer [{count: 3}] the sales are reported as removed. *)
Lemma operacional_can_clear_sales :
  let user := Some (Auth.mkUser 2 "operacional") in
  Auth.role_is user "admin" = false ∧
  clearSalesButton user = true ∧
  toasts (handleConfirmClearAllSales (RespOk (JObj [("count", JNum 3)]))
            (handleClearAllSales example_component)) =
    [mkToast "Vendas removidas" "Foram removidas 3 vendas do sistema" None].
Proof. by vm_compute. Qed.

(** The payment button is shown only on a completed sale that is not
    marked paid, and only to [admin] and [financeiro]. *)
Lemma markAsPaidButton_true user sale :
  markAsPaidButton user sale = true →
  status sale = "completed" ∧ financialStatus sale ≠ "paid" ∧
  ∃ u, user = Some u ∧ (Auth.role u = "admin" ∨ Auth.role u = "financeiro").
Proof.
  unfold markAsPaidButton.
  intros [[Hrole Hstatus]%andb_prop Hfin]%andb_prop.
  apply String.eqb_eq in Hstatus. apply negb_true_iff, String.eqb_neq in Hfin.
  split; [done|]. split; [done|].
  apply orb_true_iff in Hrole as [H|H]; apply role_is_true in H as (u & -> & H); eauto.
Qed.

(** C2.  A mark-paid request is accepted only for an order that is
    completed and unpaid; the order it leaves is completed and paid,
    and every further mark-paid request on it, and on any order marked
    paid, is rejected as [TransitionNotAllowed].  On the page, the
    payment button is offered on a sale only when it is completed and
    not marked paid. *)
Theorem mark_paid_only_once (actor : Gateway.Actor) (o o' : Gateway.Order) :
  Gateway.applyMarkPaid actor o = inl o' →
  (Gateway.executionStatus o = Gateway.completed ∧
   Gateway.financialStatus o = Gateway.unpaid) ∧
  (Gateway.executionStatus o' = Gateway.completed ∧
   Gateway.financialStatus o' = Gateway.paid) ∧
  (∀ actor', Gateway.applyMarkPaid actor' o' = inr Gateway.TransitionNotAllowed) ∧
  (∀ actor' paidOrder,
     Gateway.financialStatus paidOrder = Gateway.paid →
     Gateway.applyMarkPaid actor' paidOrder = inr Gateway.TransitionNotAllowed) ∧
  (∀ user sale,
     markAsPaidButton user sale = true →
     status sale = "completed" ∧ financialStatus sale ≠ "paid").
Proof.
  intros Happly. unfold Gateway.applyMarkPaid in Happly.
  destruct (Gateway.validateMarkPaid o (Gateway.actorRole actor)) eqn:Hv; [done|].
  injection Happly as <-.
  apply GatewayFacts.validateMarkPaid_accepts in Hv as (He & Hf & _).
  split; [done|]. split; [done|].
  split; [intros; by apply GatewayFacts.applyMarkPaid_paid|].
  split; [intros; by apply GatewayFacts.applyMarkPaid_paid|].
  intros user sale H. apply markAsPaidButton_true in H as (H1 & H2 & _). done.
Qed.

Lemma mark_paid_only_once_witness :
  let o := Gateway.mkOrder 1 "OS-1" "Ana" 7 "joao" 100 5000
             Gateway.completed Gateway.unpaid None in
  let o' := Gateway.mkOrder 1 "OS-1" "Ana" 7 "joao" 100 5000
              Gateway.completed Gateway.paid (Some 9%nat) in
  Gateway.applyMarkPaid (Gateway.mkActor 9 Gateway.finance) o = inl o' ∧
  Gateway.applyMarkPaid (Gateway.mkActor 9 Gateway.finance) o'
    = inr Gateway.TransitionNotAllowed.
Proof.
  cbv zeta. split; [reflexivity|].
  by apply (mark_paid_only_once (Gateway.mkActor 9 Gateway.finance)
              (Gateway.mkOrder 1 "OS-1" "Ana" 7 "joao" 100 5000
                 Gateway.completed Gateway.unpaid None)
              (Gateway.mkOrder 1 "OS-1" "Ana" 7 "joao" 100 5000
                 Gateway.completed Gateway.paid (Some 9%nat)) eq_refl).
Defined.


(** *** Status presentation, sorting *)

Ltac case_status status :=
  repeat match goal with
         | |- context [String.eqb status ?lit] =>
             destruct (String.eqb_spec status lit) as [->|?]
         end.

(** X9.  The row class, the card class and the inline style highlight
    the same four statuses, corrected, completed, in_progress and
    returned, and the classes are the status behind a fixed prefix;
    every other status, the empty one and unknown ones included, gets
    no class and an empty style.  A status outside the six known ones
    is shown under its own name with the default badge. *)
Theorem status_highlighting_is_consistent (status : string) :
  (getStatusRowClass status ≠ "" ↔ status ∈ highlighted) ∧
  (getStatusCardClass status ≠ "" ↔ status ∈ highlighted) ∧
  (getStatusStyle status ≠ [] ↔ status ∈ highlighted) ∧
  (status ∈ highlighted →
   getStatusRowClass status = "status-row-" +:+ status ∧
   getStatusCardClass status = "status-card-" +:+ status ∧
   length (getStatusStyle status) = 3%nat) ∧
  (status ∉ knownStatuses →
   getStatusLabel status = status ∧ getStatusVariant status = "default").
Proof.
  unfold highlighted, knownStatuses.
  assert (∀ l : list string, status ∈ l ↔ In status l) as Hin
    by (intros; apply list_elem_of_In).
  rewrite !Hin. simpl.
  unfold getStatusRowClass, getStatusCardClass, getStatusStyle, getStatusLabel,
    getStatusVariant, nonempty.
  destruct (String.eqb_spec status "") as [->|Hne]; cbn [negb];
    repeat split; case_status status; simpl; intros;
    first [ done | tauto | discriminate | congruence
          | intuition congruence | intuition discriminate ].
Qed.

Lemma status_highlighting_is_consistent_witness :
  getStatusRowClass "returned" = "status-row-returned" ∧
  getStatusLabel "archived" = "archived".
Proof.
  destruct (status_highlighting_is_consistent "returned") as (_ & _ & _ & H & _).
  destruct (status_highlighting_is_consistent "archived") as (_ & _ & _ & _ & H').
  split.
  - apply H. compute_done.
  - apply H'. compute_done.
Defined.


Lemma SortField_eqb_eq a b : SortField_eqb a b = true ↔ a = b.
Proof. destruct a, b; by vm_compute. Qed.

(** X10.  Sorting, the status filter and the search term leave the
    page number as it is (unlike the seller filter, the date range and
    the page size), so the query that follows asks for the same page
    number of the new view.  A click on the column already sorted
    reverses the direction, and a second click restores the state; a
    click on another column sorts by it, ascending. *)
Theorem sort_status_search_keep_the_page (field : SortField) (text : string)
    (user : option Auth.User) (st : State) :
  page (toggleSort field st) = page st ∧
  page (setStatusFilter text st) = page st ∧
  page (setSearchTerm text st) = page st ∧
  salesQueryParams user (toggleSort field st) !! 0%nat = Some ("page", pretty (page st)) ∧
  salesQueryParams user (setStatusFilter text st) !! 0%nat
    = Some ("page", pretty (page st)) ∧
  (sortField st = field →
   sortField (toggleSort field st) = field ∧
   sortDirection (toggleSort field st) ≠ sortDirection st ∧
   toggleSort field (toggleSort field st) = st) ∧
  (sortField st ≠ field →
   sortField (toggleSort field st) = field ∧
   sortDirection (toggleSort field st) = asc).
Proof.
  unfold toggleSort.
  destruct (SortField_eqb (sortField st) field) eqn:He.
  - apply SortField_eqb_eq in He.
    repeat split; try done.
    + by destruct (sortDirection st).
    + cbn. rewrite (proj2 (SortField_eqb_eq _ _) H).
      destruct st as [? ? []]; reflexivity.
  - assert (sortField st ≠ field) as Hne.
    { intros H%SortField_eqb_eq. congruence. }
    repeat split; done.
Qed.

Lemma sort_status_search_keep_the_page_witness :
  let st := setPage 4 initialState in
  toggleSort by_date (toggleSort by_date st) = st ∧
  sortDirection (toggleSort by_totalAmount st) = asc ∧
  page (toggleSort by_totalAmount st) = 4%Z.
Proof.
  cbv zeta.
  destruct (sort_status_search_keep_the_page by_date "" None (setPage 4 initialState))
    as (_ & _ & _ & _ & _ & Hsame & _).
  destruct (sort_status_search_keep_the_page by_totalAmount "" None
              (setPage 4 initialState))
    as (Hp & _ & _ & _ & _ & _ & Hother).
  split; [by apply Hsame|].
  split; [by apply Hother|exact Hp].
Defined.


(** *** The query key *)

Lemma append_same_length_inj (a a' b b' : string) :
  String.length a = String.length a' → a +:+ b = a' +:+ b' → a = a'.
Proof.
  revert a'. induction a as [|c a IH]; intros [|c' a']; simpl; try done.
  intros [= Hlen] [= -> Happ]. f_equal. by apply IH.
Qed.

Lemma SortField_name_inj a b : SortField_name a = SortField_name b → a = b.
Proof. by destruct a, b. Qed.

Lemma SortDirection_name_inj a b : SortDirection_name a = SortDirection_name b → a = b.
Proof. by destruct a, b. Qed.

Lemma datePart_inj (o o' : option Date) :
  (∀ d, o = Some d → String.length (isoDay d) = 10%nat) →
  (∀ d, o' = Some d → String.length (isoDay d) = 10%nat) →
  match o with Some d => KStr (toISOString d) | None => KUndefined end
  = match o' with Some d => KStr (toISOString d) | None => KUndefined end →
  isoDay <$> o = isoDay <$> o'.
Proof.
  intros Hwf Hwf'. destruct o as [d|], o' as [d'|]; try done.
  intros [= H]. simpl. f_equal.
  apply (append_same_length_inj _ _ _ _ (eq_trans (Hwf d eq_refl) (eq_sym (Hwf' d' eq_refl))) H).
Qed.

(** X11.  The query key covers the whole request: two views, of the
    same or of different users, that are cached under the same key send
    the same parameters, so a cached page is never the answer to
    another request.  (The dates are in ISO form, with a day part of
    ten characters.) *)
Theorem equal_keys_send_equal_requests (user user' : option Auth.User) (st st' : State) :
  datesWellFormed st → datesWellFormed st' →
  salesQueryKey user st = salesQueryKey user' st' →
  salesQueryParams user st = salesQueryParams user' st'.
Proof.
  intros Hwf Hwf'. unfold salesQueryKey.
  intros [= Hrole Hpage Hlimit Hstatus Hsearch Hfield Hdir Hfrom Hto Hseller].
  apply SortField_name_inj in Hfield. apply SortDirection_name_inj in Hdir.
  apply datePart_inj in Hfrom; [|intros d Hd; apply Hwf; by left
                                |intros d Hd; apply Hwf'; by left].
  apply datePart_inj in Hto; [|intros d Hd; apply Hwf; by right
                              |intros d Hd; apply Hwf'; by right].
  assert (sellerIdParam user st = sellerIdParam user' st') as Hparam.
  { unfold sellerIdParam. rewrite Hseller.
    destruct (nonempty _ && _); [done|].
    destruct (Auth.role_is user "vendedor") eqn:Hu,
             (Auth.role_is user' "vendedor") eqn:Hu';
      destruct user as [u|], user' as [u'|]; try done.
    injection Hrole as Hid. apply Nat2Z.inj in Hid. by rewrite Hid. }
  unfold salesQueryParams.
  rewrite Hpage, Hlimit, Hstatus, Hsearch, Hfield, Hdir, Hparam.
  do 6 f_equal.
  - destruct (dateRange st ≫= range_from), (dateRange st' ≫= range_from);
      simpl in Hfrom; try done. by injection Hfrom as ->.
  - f_equal.
    destruct (dateRange st ≫= range_to), (dateRange st' ≫= range_to);
      simpl in Hto; try done. by injection Hto as ->.
Qed.

Lemma equal_keys_send_equal_requests_witness :
  let range := Some (mkDateRange (Some (mkDate "2025-04-01" "03:00:00.000Z")) None) in
  let st := setDateRange range (setPage 4 initialState) in
  salesQueryParams (Some example_user) st
  = salesQueryParams (Some example_user) (setDeleteDialogOpen true (setTotals 9 130 st)).
Proof.
  cbv zeta. apply equal_keys_send_equal_requests.
  - intros d [[= <-]|[=]]. reflexivity.
  - intros d [[= <-]|[=]]. reflexivity.
  - reflexivity.
Defined.


(** *** The export queries *)

Lemma param_app name a b :
  param name (a ++ b) = match param name a with Some v => Some v | None => param name b end.
Proof.
  induction a as [|[k v] a IH]; simpl; [done|]. by destruct (String.eqb k name).
Qed.

Lemma exportSellerIdParam_param user :
  param "sellerId" (exportSellerIdParam user) =
    match user with
    | Some u => if String.eqb (Auth.role u) "vendedor"
                then Some (pretty (Auth.id u)) else None
    | None => None
    end.
Proof.
  unfold exportSellerIdParam. destruct user as [u|]; simpl; [|done].
  by destruct (String.eqb (Auth.role u) "vendedor").
Qed.

Lemma exportSellerIdParam_other user name :
  name ≠ "sellerId" → param name (exportSellerIdParam user) = None.
Proof.
  intros Hne. unfold exportSellerIdParam.
  destruct (Auth.role_is user "vendedor"); [|done].
  destruct user as [u|]; cbn [param]; [|done].
  by rewrite (proj2 (String.eqb_neq "sellerId" name)).
Qed.

Lemma sellerIdParam_other user st name :
  name ≠ "sellerId" → param name (sellerIdParam user st) = None.
Proof.
  intros Hne. unfold sellerIdParam.
  assert (String.eqb "sellerId" name = false) as He by by apply String.eqb_neq.
  destruct (_ && _); cbn [param]; [by rewrite He|].
  destruct (Auth.role_is user "vendedor"); [|done].
  destruct user as [u|]; cbn [param]; [|done]. by rewrite He.
Qed.

(** X12.  The filtered export asks for what the page shows, without
    the paging: its status, search, date and sort parameters are those
    of the page query, it asks for up to 1000 rows and for no page.
    Its seller parameter does not come from the seller filter: a
    [vendedor] always sends the own id, every other user sends none, so
    a seller picked in the filter does not narrow the export.  The
    export of all sales sends the same seller parameter and the limit
    only. *)
Theorem export_requests (user : option Auth.User) (st : State) :
  let own := match user with
             | Some u => if String.eqb (Auth.role u) "vendedor"
                         then Some (pretty (Auth.id u)) else None
             | None => None
             end in
  (∀ name, name ∈ viewParams →
           param name (fetchAllFilteredSalesParams user st)
           = param name (salesQueryParams user st)) ∧
  param "limit" (fetchAllFilteredSalesParams user st) = Some "1000" ∧
  param "page" (fetchAllFilteredSalesParams user st) = None ∧
  param "sellerId" (fetchAllFilteredSalesParams user st) = own ∧
  fetchAllSalesParams user =
    match own with Some i => [("sellerId", i)] | None => [] end ++ [("limit", "1000")].
Proof.
  cbv zeta. split; [|split; [|split; [|split]]].
  - intros name Hin. unfold viewParams in Hin.
    assert (name ≠ "sellerId") as Hne.
    { intros ->. repeat (apply elem_of_cons in Hin as [Hin|Hin]; [done|]).
      by apply elem_of_nil in Hin. }
    unfold fetchAllFilteredSalesParams, salesQueryParams.
    rewrite !param_app, (exportSellerIdParam_other _ _ Hne),
      (sellerIdParam_other _ _ _ Hne).
    repeat (apply elem_of_cons in Hin as [->|Hin]);
      [..|by apply elem_of_nil in Hin];
      destruct (nonempty (statusFilter st)), (nonempty (searchTerm st)),
        (dateRange st ≫= range_from), (dateRange st ≫= range_to); reflexivity.
  - unfold fetchAllFilteredSalesParams.
    rewrite !param_app, exportSellerIdParam_other by done.
    destruct (nonempty (statusFilter st)), (nonempty (searchTerm st)),
        (dateRange st ≫= range_from), (dateRange st ≫= range_to); reflexivity.
  - unfold fetchAllFilteredSalesParams.
    rewrite !param_app, exportSellerIdParam_other by done.
    destruct (nonempty (statusFilter st)), (nonempty (searchTerm st)),
        (dateRange st ≫= range_from), (dateRange st ≫= range_to); reflexivity.
  - unfold fetchAllFilteredSalesParams.
    rewrite param_app, exportSellerIdParam_param.
    destruct user as [u|]; simpl.
    + destruct (String.eqb (Auth.role u) "vendedor"); [done|].
      destruct (nonempty (statusFilter st)), (nonempty (searchTerm st)),
        (dateRange st ≫= range_from), (dateRange st ≫= range_to); reflexivity.
    + destruct (nonempty (statusFilter st)), (nonempty (searchTerm st)),
        (dateRange st ≫= range_from), (dateRange st ≫= range_to); reflexivity.
  - unfold fetchAllSalesParams, exportSellerIdParam.
    destruct user as [u|]; simpl; [|done].
    by destruct (String.eqb (Auth.role u) "vendedor").
Qed.

Lemma export_requests_witness :
  let st := setSelectedSellerId "8" (setStatusFilter "pending" initialState) in
  param "status" (fetchAllFilteredSalesParams (Some example_user) st) = Some "pending" ∧
  param "sellerId" (salesQueryParams (Some example_user) st) = Some "8" ∧
  param "sellerId" (fetchAllFilteredSalesParams (Some example_user) st) = Some "7".
Proof.
  cbv zeta.
  destruct (export_requests (Some example_user)
              (setSelectedSellerId "8" (setStatusFilter "pending" initialState)))
    as (Hview & _ & _ & Hseller & _).
  split; [|split; [reflexivity|exact Hseller]].
  rewrite Hview; [reflexivity|]. compute_done.
Defined.


(** *** The local cache, saved and read back *)

Lemma cacheItem_inj key key' : cacheItem key = cacheItem key' → key = key'.
Proof. unfold cacheItem. by intros [= H]. Qed.

Lemma getFromLocalCache_saved key data t time ls :
  (time - t ≤ 3600000)%Z →
  getFromLocalCache time key (saveToLocalCache t false key data ls)
  = (Some data, saveToLocalCache t false key data ls).
Proof.
  intros Hage. unfold saveToLocalCache.
  apply (getFromLocalCache_within _ _ _ data t); [apply lookup_insert_eq|exact Hage].
Qed.

(** X13.  What [saveToLocalCache] stores under a key is what
    [getFromLocalCache] reads back under that key for the next hour,
    and it is not seen under any other key; nothing is stored when
    [setItem] raises.  A key that was never saved, or whose item does
    not parse, reads as [null] and leaves the storage alone; removing
    an expired item leaves the items of the other keys in place. *)
Theorem local_cache_round_trip (key : string) (data : json) (savedAt now : Z)
    (ls : gmap string Stored) :
  (now - savedAt ≤ 3600000)%Z →
  let saved := saveToLocalCache savedAt false key data ls in
  getFromLocalCache now key saved = (Some data, saved) ∧
  (∀ key', key' ≠ key →
           (getFromLocalCache now key' saved).1 = (getFromLocalCache now key' ls).1) ∧
  saveToLocalCache savedAt true key data ls = ls ∧
  (ls !! cacheItem key = None ∨ ls !! cacheItem key = Some Unparseable →
   getFromLocalCache now key ls = (None, ls)) ∧
  (∀ key', key' ≠ key →
           (getFromLocalCache now key ls).2 !! cacheItem key' = ls !! cacheItem key').
Proof.
  intros Hage. cbv zeta. unfold saveToLocalCache.
  split; [|split; [|split; [|split]]].
  - by apply getFromLocalCache_saved.
  - intros key' Hne. unfold getFromLocalCache.
    rewrite lookup_insert_ne by (intros H%cacheItem_inj; congruence).
    destruct (ls !! cacheItem key') as [[d t|]|]; try done.
    by destruct (_ <? _)%Z.
  - done.
  - unfold getFromLocalCache. by intros [-> | ->].
  - intros key' Hne. unfold getFromLocalCache.
    destruct (ls !! cacheItem key) as [[d t|]|]; try done.
    destruct (_ <? _)%Z; simpl; [|done].
    apply lookup_delete_ne. intros H%cacheItem_inj. congruence.
Qed.

Lemma local_cache_round_trip_witness :
  (getFromLocalCache 5000 "users" (saveToLocalCache 1000 false "users" (JArr []) ∅)).1
  = Some (JArr []) ∧
  (getFromLocalCache 5000 "customers"
     (saveToLocalCache 1000 false "users" (JArr []) ∅)).1 = None.
Proof.
  destruct (local_cache_round_trip "users" (JArr []) 1000 5000 ∅) as (Hget & Hother & _);
    [lia|].
  split; [by rewrite Hget|].
  rewrite Hother; [reflexivity|discriminate].
Defined.

(** X14.  Reference data that had to be fetched are saved, and a
    second run of the query within the hour after the save answers
    from the local cache without a request, whatever the server would
    answer then.  This holds for truthy data and a working [setItem]
    only: data that are falsy are fetched again at every run, and so
    are data that could not be saved.  A failed fetch yields the error
    text of the resource and saves nothing. *)
Theorem reference_data_fetched_once_an_hour (r : Reference) (env env' : Browser)
    (body : json) (later : Response json) (ls : gmap string Stored) :
  (getFromLocalCache (now env) (Reference_key r) ls).1 = None →
  (now env' - savedAt env ≤ 3600000)%Z →
  let ls0 := (getFromLocalCache (now env) (Reference_key r) ls).2 in
  let first := referenceQueryFn r env (RespOk body) ls in
  first.1 = (Success body, true) ∧
  (truthy body = true → setItemThrows env = false →
   referenceQueryFn r env' later first.2 = (Success body, false, first.2)) ∧
  (truthy body = false → setItemThrows env = false →
   (referenceQueryFn r env' later first.2).1.2 = true) ∧
  (setItemThrows env = true → first.2 = ls0) ∧
  (∀ message, referenceQueryFn r env (RespError message) ls
              = (Failure (Reference_error r), true, ls0)).
Proof.
  intros Hmiss Hage. cbv zeta.
  assert (∀ response, referenceQueryFn r env response ls =
            match response with
            | RespError _ =>
                (Failure (Reference_error r), true,
                 (getFromLocalCache (now env) (Reference_key r) ls).2)
            | RespOk b =>
                (Success b, true,
                 saveToLocalCache (savedAt env) (setItemThrows env) (Reference_key r) b
                   (getFromLocalCache (now env) (Reference_key r) ls).2)
            end) as Hrun.
  { intros response. unfold referenceQueryFn.
    destruct (getFromLocalCache _ _ ls) as [cached ls1]. simpl in Hmiss. by subst cached. }
  rewrite !Hrun. cbn [fst snd].
  split; [done|]. split; [|split; [|split]].
  - intros Htruthy ->. unfold referenceQueryFn.
    rewrite (getFromLocalCache_saved _ _ _ _ _ Hage). by rewrite Htruthy.
  - intros Hfalsy ->. unfold referenceQueryFn.
    rewrite (getFromLocalCache_saved _ _ _ _ _ Hage). rewrite Hfalsy. by destruct later.
  - by intros ->.
  - intros message. by rewrite Hrun.
Qed.

Lemma reference_data_fetched_once_an_hour_witness :
  let env := mkBrowser 1000 1005 false in
  let first := referenceQueryFn users env (RespOk (JArr [JNum 1])) ∅ in
  first.1 = (Success (JArr [JNum 1]), true) ∧
  referenceQueryFn users (mkBrowser 2000 2005 false) (RespError None) first.2
  = (Success (JArr [JNum 1]), false, first.2).
Proof.
  cbv zeta.
  destruct (reference_data_fetched_once_an_hour users (mkBrowser 1000 1005 false)
              (mkBrowser 2000 2005 false) (JArr [JNum 1]) (RespError None) ∅)
    as (H1 & H2 & _); [reflexivity|simpl; lia|].
  split; [exact H1|]. by apply H2.
Defined.


(** *** Failed mutations, and what invalidation leaves alone *)



Section InvalidationShape.
Context {D : Type}.
Implicit Types (cache : list (Query D)) (q : Query D).

Lemma invalidateQueries_shape filterKey cache :
  map queryKey (invalidateQueries filterKey cache) = map queryKey cache ∧
  map QueryClient.data (invalidateQueries filterKey cache) = map QueryClient.data cache ∧
  map dataUpdatedAt (invalidateQueries filterKey cache) = map dataUpdatedAt cache.
Proof.
  unfold invalidateQueries. rewrite !map_map.
  repeat split; apply map_ext; intros q;
    by destruct (partialMatchKey (queryKey q) filterKey).
Qed.

Lemma invalidateQueries_idem filterKey cache :
  invalidateQueries filterKey (invalidateQueries filterKey cache)
  = invalidateQueries filterKey cache.
Proof.
  unfold invalidateQueries. rewrite map_map. apply map_ext. intros q.
  destruct (partialMatchKey (queryKey q) filterKey) eqn:Hm; simpl; by rewrite Hm.
Qed.

Lemma invalidateQueries_other filterKey cache q :
  q ∈ cache → partialMatchKey (queryKey q) filterKey = false →
  q ∈ invalidateQueries filterKey cache.
Proof.
  intros Hin Hm. unfold invalidateQueries.
  rewrite list_elem_of_In, in_map_iff. exists q. rewrite Hm.
  split; [done|by apply list_elem_of_In].
Qed.

End InvalidationShape.

(** X16.  The invalidation that follows a change of the orders only
    sets flags: the query cache keeps its entries, in order, with their
    keys, their data and their times; an entry whose key is not under
    [["/api/sales"]] is left exactly as it was; and a second change
    adds nothing to the first. *)
Theorem invalidation_only_flags_order_pages (change change' : Change) (c : Component) :
  let cache := queryCache c in
  let cache' := queryCache (after change c) in
  map queryKey cache' = map queryKey cache ∧
  map QueryClient.data cache' = map QueryClient.data cache ∧
  map dataUpdatedAt cache' = map dataUpdatedAt cache ∧
  (∀ q, q ∈ cache → partialMatchKey (queryKey q) salesKey = false → q ∈ cache') ∧
  (∀ q, q ∈ cache → isInvalidated q = true → q ∈ cache') ∧
  queryCache (after change' (after change c)) = cache'.
Proof.
  cbv zeta. rewrite !after_queryCache.
  destruct (invalidateQueries_shape salesKey (queryCache c)) as (Hk & Hd & Ht).
  split; [done|]. split; [done|]. split; [done|].
  split; [intros q; apply invalidateQueries_other|].
  split; [|apply invalidateQueries_idem].
  intros q Hin Hinv. unfold invalidateQueries.
  rewrite list_elem_of_In, in_map_iff. exists q.
  split; [|by apply list_elem_of_In].
  destruct (partialMatchKey _ _); [|done].
  destruct q as [k d t i]; simpl in *. by subst i.
Qed.

Example invalidation_leaves_reference_queries :
  let customersQuery := mkQuery [KStr "/api/customers"] example_page 500 false in
  let c := with_queryCache (cons customersQuery) example_component in
  queryCache (after SalesUpdateReceived c)
  = customersQuery :: invalidateQueries salesKey (queryCache example_component).
Proof. reflexivity. Qed.


(** *** Starting the execution, action buttons, names *)

(** X17.  For a sale that is among the rows of the page, starting or
    completing the execution from the list ends, for every user, with
    the operation dialog open on that sale; nothing else in the
    dialogs, the state, the local cache or the toasts changes.  The
    role only decides whether the order pages are invalidated on the
    way: not for operacional, admin and supervisor, and for every other
    user they are. *)
Theorem execution_handlers_open_the_operation_dialog (user : option Auth.User)
    (sales : list Sale) (s : Sale) (c : Component) (dl : Dialogs) :
  findSale (id s) sales = Some s →
  let started := handleStartExecution user sales s (c, dl) in
  handleCompleteExecution user sales s (c, dl) = started ∧
  started.2 = openOperation s dl ∧
  state started.1 = state c ∧
  localStorage started.1 = localStorage c ∧
  toasts started.1 = toasts c ∧
  queryCache started.1 =
    (if operationalRole user then queryCache c
     else invalidateQueries salesKey (queryCache c)).
Proof.
  intros Hfind. cbv zeta.
  unfold handleStartExecution, handleCompleteExecution, startExecutionMutation,
    completeExecutionMutation, executionMutation.
  rewrite Hfind. by destruct (operationalRole user).
Qed.

Lemma execution_handlers_open_the_operation_dialog_witness :
  let dl := mkDialogs None false false false false in
  (handleStartExecution (Some example_user) [example_sale] example_sale
     (example_component, dl)).2
  = mkDialogs (Some example_sale) true false false false.
Proof.
  cbv zeta.
  by destruct (execution_handlers_open_the_operation_dialog (Some example_user)
                 [example_sale] example_sale example_component
                 (mkDialogs None false false false false) eq_refl) as (_ & -> & _).
Defined.

(** A sale that is not among the rows of the page: the user who is not
    operacional, admin or supervisor gets the error toast and no
    dialog. *)
Lemma execution_of_a_missing_sale user sales s c dl :
  findSale (id s) sales = None → operationalRole user = false →
  handleStartExecution user sales s (c, dl)
  = (errorToast "Erro ao iniciar execução" "Venda não encontrada" c, dl) ∧
  handleCompleteExecution user sales s (c, dl)
  = (errorToast "Erro ao concluir execução" "Venda não encontrada" c, dl).
Proof.
  intros Hfind Hrole.
  unfold handleStartExecution, handleCompleteExecution, startExecutionMutation,
    completeExecutionMutation, executionMutation.
  by rewrite Hfind, Hrole.
Qed.

(** X18.  On the card of a sale, the buttons to start, complete or
    return it are shown to admin and operacional only, each for its own
    statuses: to these two roles a pending sale shows start and return,
    a sale in progress shows complete and return, a corrected sale
    shows start and the return of a corrected sale, and no sale shows
    another of the four; so start and complete are never together, nor
    the two return buttons, and none of the four is shown for a sale
    that is not pending, in progress or corrected.  The
    payment-confirmation button is shown to admin and financeiro only,
    for a completed sale that is not paid.  Whoever is shown any action
    button is an admin, an operacional or a financeiro; the delete
    button is shown to admin alone.  A supervisor, whom the start and
    complete handlers treat as operational, is shown none. *)
Theorem card_buttons (user : option Auth.User) (s : Sale) :
  (startButton user s || completeButton user s || returnButton user s
   || returnCorrectedButton user s = true →
   ∃ u, user = Some u ∧ (Auth.role u = "admin" ∨ Auth.role u = "operacional")) ∧
  ((∃ u, user = Some u ∧ (Auth.role u = "admin" ∨ Auth.role u = "operacional")) →
   (status s = "pending" →
    startButton user s = true ∧ completeButton user s = false ∧
    returnButton user s = true ∧ returnCorrectedButton user s = false) ∧
   (status s = "in_progress" →
    startButton user s = false ∧ completeButton user s = true ∧
    returnButton user s = true ∧ returnCorrectedButton user s = false) ∧
   (status s = "corrected" →
    startButton user s = true ∧ completeButton user s = false ∧
    returnButton user s = false ∧ returnCorrectedButton user s = true)) ∧
  (markAsPaidButton user s = true ↔
   (∃ u, user = Some u ∧ (Auth.role u = "admin" ∨ Auth.role u = "financeiro")) ∧
   status s = "completed" ∧ financialStatus s ≠ "paid") ∧
  startButton user s && completeButton user s = false ∧
  returnButton user s && returnCorrectedButton user s = false ∧
  (status s ∉ ["pending"; "in_progress"; "corrected"] →
   startButton user s = false ∧ completeButton user s = false ∧
   returnButton user s = false ∧ returnCorrectedButton user s = false) ∧
  (startButton user s || completeButton user s || returnButton user s
   || returnCorrectedButton user s || markAsPaidButton user s || deleteButton user = true →
   ∃ u, user = Some u ∧
        (Auth.role u = "admin" ∨ Auth.role u = "operacional" ∨ Auth.role u = "financeiro")) ∧
  (deleteButton user = true ↔ ∃ u, user = Some u ∧ Auth.role u = "admin") ∧
  (Auth.role_is user "supervisor" = true →
   operationalRole user = true ∧
   startButton user s = false ∧ completeButton user s = false ∧
   returnButton user s = false ∧ returnCorrectedButton user s = false ∧
   markAsPaidButton user s = false ∧ deleteButton user = false).
Proof.
  assert (adminOrOperacional user = true ↔
          ∃ u, user = Some u ∧ (Auth.role u = "admin" ∨ Auth.role u = "operacional"))
    as Hrole.
  { unfold adminOrOperacional. rewrite orb_true_iff, !role_is_true.
    split.
    - intros [(u & -> & H)|(u & -> & H)]; eauto.
    - intros (u & -> & [H|H]); eauto. }
  split; [|split; [|split]].
  { intros H. apply Hrole.
    unfold startButton, completeButton, returnButton, returnCorrectedButton in H.
    by destruct (adminOrOperacional user). }
  { intros Hu%Hrole.
    unfold startButton, completeButton, returnButton, returnCorrectedButton.
    rewrite Hu. split; [|split]; intros Hst; rewrite Hst; done. }
  { split.
    - intros H. apply markAsPaidButton_true in H as (H1 & H2 & H3). done.
    - intros ((u & -> & Hr) & Hst & Hfin). unfold markAsPaidButton.
      rewrite Hst. apply String.eqb_neq in Hfin. rewrite Hfin. simpl.
      rewrite andb_true_r. destruct Hr as [-> | ->]; reflexivity. }
  unfold startButton, completeButton, returnButton, returnCorrectedButton,
    markAsPaidButton, deleteButton, adminOrOperacional, operationalRole.
  split; [|split; [|split; [|split; [|split]]]].
  - destruct (Auth.role_is user "admin" || Auth.role_is user "operacional");
      [|done]. simpl.
    destruct (String.eqb_spec (status s) "pending") as [->|]; [done|].
    destruct (String.eqb_spec (status s) "corrected") as [->|]; [done|]. done.
  - destruct (Auth.role_is user "admin" || Auth.role_is user "operacional");
      [|done]. simpl.
    destruct (String.eqb_spec (status s) "pending") as [->|]; [done|].
    destruct (String.eqb_spec (status s) "in_progress") as [->|]; [done|]. done.
  - intros Hst.
    assert (String.eqb (status s) "pending" = false ∧
            String.eqb (status s) "in_progress" = false ∧
            String.eqb (status s) "corrected" = false) as (-> & -> & ->).
    { rewrite !String.eqb_neq. repeat split; intros E; apply Hst; rewrite E;
        compute_done. }
    by rewrite !andb_false_r.
  - intros H.
    assert (Auth.role_is user "admin" || Auth.role_is user "operacional"
            || Auth.role_is user "financeiro" = true) as Hr.
    { destruct (Auth.role_is user "admin"), (Auth.role_is user "operacional"),
        (Auth.role_is user "financeiro"); simpl in *; done. }
    apply orb_true_iff in Hr as [Hr|Hr];
      [apply orb_true_iff in Hr as [Hr|Hr]|];
      apply role_is_true in Hr as (u & -> & Hr); eauto 6.
  - apply role_is_true.
  - intros (u & -> & Hr)%role_is_true. simpl. rewrite Hr. by vm_compute.
Qed.

Lemma card_buttons_witness :
  let supervisor := Some (Auth.mkUser 5 "supervisor") in
  let operacional := Some (Auth.mkUser 6 "operacional") in
  let corrected :=
    mkSale 2 "OS-2" "2025-04-30" 3 2 7 None None "50.00" "corrected" "waiting" "pending"
      None None None None "2025-04-30T10:00:00.000Z" "2025-04-30T10:00:00.000Z" in
  operationalRole supervisor = true ∧ startButton supervisor example_sale = false ∧
  startButton operacional corrected = true ∧
  returnCorrectedButton operacional corrected = true ∧
  returnButton operacional corrected = false.
Proof.
  cbv zeta.
  destruct (card_buttons (Some (Auth.mkUser 5 "supervisor")) example_sale)
    as (_ & _ & _ & _ & _ & _ & _ & _ & H).
  destruct (H eq_refl) as (H1 & H2 & _).
  split; [exact H1|]. split; [exact H2|].
  set (corrected := mkSale 2 _ _ _ _ _ _ _ _ _ _ _ _ _ _ _ _ _).
  destruct (card_buttons (Some (Auth.mkUser 6 "operacional")) corrected)
    as (_ & Hby & _).
  destruct Hby as (_ & _ & Hc).
  { exists (Auth.mkUser 6 "operacional"). split; [reflexivity|]. by right. }
  destruct (Hc eq_refl) as (Hs & _ & Hr & Hrc). done.
Defined.


Lemma orElse_nonempty name fallback : fallback ≠ "" → orElse name fallback ≠ "".
Proof.
  intros Hf. unfold orElse, nonempty.
  destruct (String.eqb_spec name "") as [->|Hn]; simpl; done.
Qed.

Lemma nameOf_missing refs i :
  (∀ r, r ∈ refs → refId r ≠ i) → nameOf refs (Some i) = "".
Proof.
  intros Hno. unfold nameOf.
  destruct (List.find _ refs) as [r|] eqn:Hf; [|done].
  apply find_some in Hf as [Hin Hid%Nat.eqb_eq].
  exfalso. by apply (Hno r); [apply list_elem_of_In|].
Qed.

Lemma nameOf_first refs i r : firstWithId refs i r → nameOf refs (Some i) = refName r.
Proof.
  intros (before & after & -> & Hid & Hbefore). unfold nameOf.
  induction before as [|x before IH]; simpl.
  - by rewrite Hid, Nat.eqb_refl.
  - assert (refId x ≠ i) as Hx by (apply Hbefore; by left).
    apply Nat.eqb_neq in Hx. rewrite Hx.
    apply IH. intros r' Hr'. apply Hbefore. by right.
Qed.

Lemma orElse_cases name fallback :
  orElse name fallback = if String.eqb name "" then fallback else name.
Proof. unfold orElse, nonempty. by destruct (String.eqb name ""). Qed.

Lemma orNull_cases name :
  orNull name = if String.eqb name "" then None else Some name.
Proof. unfold orNull, nonempty. by destruct (String.eqb name ""). Qed.

(** X19.  Filling in the names keeps the rows as they are: as many, in
    the same order, each with every field of its sale.  Each name is
    that of the first row of its reference list with the id of the
    sale.  Where the list has no row for the id, or that row has an
    empty name, the customer, the seller and the payment method get the
    fixed label followed by the id ([Cliente #], [Vendedor #], [Forma
    de Pagamento #]), so these three are never empty, and the names of
    the service type and of the provider are absent, as they are for a
    sale that has no service type or provider. *)
Theorem enriched_rows_keep_the_sales (refs : References) (sales : list Sale) :
  map sale (enrichedSales refs sales) = sales ∧
  length (enrichedSales refs sales) = length sales ∧
  (∀ e, e ∈ enrichedSales refs sales →
        customerName e ≠ "" ∧ sellerName e ≠ "" ∧ paymentMethodName e ≠ "" ∧
        serviceTypeName e ≠ Some "" ∧ serviceProviderName e ≠ Some "") ∧
  (∀ s, (∀ r, r ∈ customerRefs refs → refId r ≠ customerId s) →
        customerName (enrich refs s) = "Cliente #" +:+ pretty (customerId s)) ∧
  (∀ s, (∀ r, r ∈ userRefs refs → refId r ≠ sellerId s) →
        sellerName (enrich refs s) = "Vendedor #" +:+ pretty (sellerId s)) ∧
  (∀ s, (∀ r, r ∈ paymentMethodRefs refs → refId r ≠ paymentMethodId s) →
        paymentMethodName (enrich refs s)
        = "Forma de Pagamento #" +:+ pretty (paymentMethodId s)) ∧
  (∀ s, serviceTypeId s = None → serviceTypeName (enrich refs s) = None) ∧
  (∀ s, serviceProviderId s = None → serviceProviderName (enrich refs s) = None) ∧
  (∀ s i, serviceTypeId s = Some i →
          (∀ r, r ∈ serviceTypeRefs refs → refId r ≠ i) →
          serviceTypeName (enrich refs s) = None) ∧
  (∀ s i, serviceProviderId s = Some i →
          (∀ r, r ∈ serviceProviderRefs refs → refId r ≠ i) →
          serviceProviderName (enrich refs s) = None) ∧
  (∀ s r, firstWithId (customerRefs refs) (customerId s) r →
          customerName (enrich refs s)
          = if String.eqb (refName r) ""
            then "Cliente #" +:+ pretty (customerId s) else refName r) ∧
  (∀ s r, firstWithId (userRefs refs) (sellerId s) r →
          sellerName (enrich refs s)
          = if String.eqb (refName r) ""
            then "Vendedor #" +:+ pretty (sellerId s) else refName r) ∧
  (∀ s r, firstWithId (paymentMethodRefs refs) (paymentMethodId s) r →
          paymentMethodName (enrich refs s)
          = if String.eqb (refName r) ""
            then "Forma de Pagamento #" +:+ pretty (paymentMethodId s) else refName r) ∧
  (∀ s i r, serviceTypeId s = Some i → firstWithId (serviceTypeRefs refs) i r →
            serviceTypeName (enrich refs s)
            = if String.eqb (refName r) "" then None else Some (refName r)) ∧
  (∀ s i r, serviceProviderId s = Some i → firstWithId (serviceProviderRefs refs) i r →
            serviceProviderName (enrich refs s)
            = if String.eqb (refName r) "" then None else Some (refName r)).
Proof.
  unfold enrichedSales.
  repeat match goal with |- _ ∧ _ => split end.
  - rewrite map_map. simpl. apply map_id.
  - apply length_map.
  - intros e. rewrite list_elem_of_In, in_map_iff. intros (s & <- & _). simpl.
    repeat split; try (by apply orElse_nonempty);
      unfold orNull, nonempty;
      match goal with |- context [String.eqb ?n ""] =>
        destruct (String.eqb_spec n "") as [->|Hn] end; simpl; congruence.
  - intros s Hno. cbn [customerName enrich]. by rewrite (nameOf_missing _ _ Hno).
  - intros s Hno. cbn [sellerName enrich]. by rewrite (nameOf_missing _ _ Hno).
  - intros s Hno. cbn [paymentMethodName enrich]. by rewrite (nameOf_missing _ _ Hno).
  - intros s Hs. simpl. by rewrite Hs.
  - intros s Hs. simpl. by rewrite Hs.
  - intros s i Hs Hno. cbn [serviceTypeName enrich].
    by rewrite Hs, (nameOf_missing _ _ Hno).
  - intros s i Hs Hno. cbn [serviceProviderName enrich].
    by rewrite Hs, (nameOf_missing _ _ Hno).
  - intros s r Hr. cbn [customerName enrich].
    by rewrite (nameOf_first _ _ _ Hr), orElse_cases.
  - intros s r Hr. cbn [sellerName enrich].
    by rewrite (nameOf_first _ _ _ Hr), orElse_cases.
  - intros s r Hr. cbn [paymentMethodName enrich].
    by rewrite (nameOf_first _ _ _ Hr), orElse_cases.
  - intros s i r Hs Hr. cbn [serviceTypeName enrich].
    by rewrite Hs, (nameOf_first _ _ _ Hr), orNull_cases.
  - intros s i r Hs Hr. cbn [serviceProviderName enrich].
    by rewrite Hs, (nameOf_first _ _ _ Hr), orNull_cases.
Qed.

Lemma enriched_rows_keep_the_sales_witness :
  let refs := mkReferences [mkNamed 3 "Ana"; mkNamed 3 "Bia"] [mkNamed 9 "rui"]
                [mkNamed 2 ""] [] [] in
  customerName (enrich refs example_sale) = "Ana" ∧
  sellerName (enrich refs example_sale) = "Vendedor #7" ∧
  paymentMethodName (enrich refs example_sale) = "Forma de Pagamento #2".
Proof.
  cbv zeta.
  destruct (enriched_rows_keep_the_sales
              (mkReferences [mkNamed 3 "Ana"; mkNamed 3 "Bia"] [mkNamed 9 "rui"]
                 [mkNamed 2 ""] [] []) [])
    as (_ & _ & _ & _ & Hseller & _ & _ & _ & _ & _ & Hcustomer & _ & Hpayment & _).
  split; [|split].
  - rewrite (Hcustomer example_sale (mkNamed 3 "Ana")); [reflexivity|].
    exists [], [mkNamed 3 "Bia"]. split; [reflexivity|]. split; [reflexivity|].
    by intros r' Hr'%elem_of_nil.
  - rewrite Hseller; [reflexivity|].
    intros r [->|Hin%elem_of_nil]%elem_of_cons; [discriminate|done].
  - rewrite (Hpayment example_sale (mkNamed 2 "")); [reflexivity|].
    exists [], []. split; [reflexivity|]. split; [reflexivity|].
    by intros r' Hr'%elem_of_nil.
Defined.


(** *** Export to Excel *)



End SalesPageFacts.

(** ** The document checks of the customer dialog *)

Module CustomerDialogFacts.
Import CustomerDialog.

Lemma digits_length s : length (digits s) = String.length s.
Proof. induction s as [|c s IH]; simpl; congruence. Qed.

Lemma onlyDigits_idem s : onlyDigits (onlyDigits s) = onlyDigits s.
Proof.
  induction s as [|c s IH]; simpl; [done|].
  destruct (isDigit c) eqn:Hc; simpl; [by rewrite Hc, IH|done].
Qed.

Lemma digitAt_take ds k i : (i < k)%nat → digitAt (take k ds) i = digitAt ds i.
Proof. intros Hi. unfold digitAt. by rewrite !nth_lookup, lookup_take_lt. Qed.

Lemma fold_left_agree (f g : nat → nat → nat) (l : list nat) :
  (∀ acc i, i ∈ l → f acc i = g acc i) →
  ∀ acc, fold_left f l acc = fold_left g l acc.
Proof.
  induction l as [|x l IH]; intros Hfg acc; [done|]. simpl.
  rewrite (Hfg acc x) by by left. apply IH. intros acc' i Hi. apply Hfg. by right.
Qed.

(** A CPF sum reads the first [count] digits only. *)
Lemma cpfSum_take ds count weight : cpfSum (take count ds) count weight = cpfSum ds count weight.
Proof.
  unfold cpfSum. apply fold_left_agree. intros acc i Hi.
  apply list_elem_of_In, in_seq in Hi. rewrite digitAt_take by lia. done.
Qed.

Lemma cpfCheckDigit_lt sum : (cpfCheckDigit sum < 10)%nat.
Proof.
  unfold cpfCheckDigit. pose proof (Nat.mod_upper_bound sum 11).
  destruct (Nat.leb_spec 10 (11 - sum mod 11)); lia.
Qed.

Lemma cnpjCheckDigit_lt sum : (cnpjCheckDigit sum < 10)%nat.
Proof.
  unfold cnpjCheckDigit. pose proof (Nat.mod_upper_bound sum 11).
  destruct (Nat.ltb_spec (sum mod 11) 2); lia.
Qed.

Lemma take_S_digitAt ds n :
  (n < length ds)%nat → take (S n) ds = take n ds ++ [digitAt ds n].
Proof.
  intros Hn. destruct (lookup_lt_is_Some_2 ds n Hn) as [x Hx].
  rewrite (take_S_r _ _ _ Hx). unfold digitAt. by rewrite nth_lookup, Hx.
Qed.

Lemma cpfDigitsValid_true ds :
  cpfDigitsValid ds = true ↔
  length ds = 11%nat ∧ allSame ds = false ∧
  digitAt ds 9 = cpfCheckDigit (cpfSum ds 9 10) ∧
  digitAt ds 10 = cpfCheckDigit (cpfSum ds 10 11).
Proof.
  unfold cpfDigitsValid.
  destruct (Nat.eqb_spec (length ds) 11); simpl; [|by split; [|intros []]].
  destruct (allSame ds); [by split; [|intros (_ & ? & _)]|].
  rewrite andb_true_iff, !Nat.eqb_eq. intuition congruence.
Qed.

Lemma cnpjDigitsValid_true ds :
  cnpjDigitsValid ds = true ↔
  length ds = 14%nat ∧ allSame ds = false ∧
  digitAt ds 12 = cnpjCheckDigit (cnpjSum (take 12 ds) 5 0) ∧
  digitAt ds 13 = cnpjCheckDigit (cnpjSum (take 13 ds) 6 0).
Proof.
  unfold cnpjDigitsValid.
  destruct (Nat.eqb_spec (length ds) 14); simpl; [|by split; [|intros []]].
  destruct (allSame ds); [by split; [|intros (_ & ? & _)]|].
  destruct (Nat.eqb_spec (cnpjCheckDigit (cnpjSum (take 12 ds) 5 0)) (digitAt ds 12));
    simpl; [|split; [done|intros (_ & _ & ? & _); congruence]].
  rewrite Nat.eqb_eq. intuition congruence.
Qed.

(** X21.  The two check digits of a CPF are a function of its first
    nine digits: two documents that [isValidCPF] accepts and that agree
    on their first nine digits have the same eleven digits, whatever
    punctuation they are written with.  The digits computed are always
    below ten, and every nine digits followed by their two computed
    check digits are accepted, unless all eleven are the same. *)
Theorem cpf_check_digits_are_determined (a b : string) :
  isValidCPF a = true → isValidCPF b = true →
  take 9 (digits (onlyDigits a)) = take 9 (digits (onlyDigits b)) →
  digits (onlyDigits a) = digits (onlyDigits b) ∧
  (∀ sum, (cpfCheckDigit sum < 10)%nat) ∧
  (∀ base, length base = 9%nat →
     let d1 := cpfCheckDigit (cpfSum base 9 10) in
     let d2 := cpfCheckDigit (cpfSum (base ++ [d1]) 10 11) in
     allSame (base ++ [d1; d2]) = false →
     cpfDigitsValid (base ++ [d1; d2]) = true).
Proof.
  unfold isValidCPF. set (da := digits (onlyDigits a)). set (db := digits (onlyDigits b)).
  intros (La & _ & Ha9 & Ha10)%cpfDigitsValid_true
         (Lb & _ & Hb9 & Hb10)%cpfDigitsValid_true H9.
  split; [|split; [apply cpfCheckDigit_lt|]].
  - assert (digitAt da 9 = digitAt db 9) as E9.
    { rewrite Ha9, Hb9, <- (cpfSum_take da), <- (cpfSum_take db). by rewrite H9. }
    assert (take 10 da = take 10 db) as H10.
    { rewrite (take_S_digitAt da 9), (take_S_digitAt db 9) by lia. by rewrite H9, E9. }
    assert (digitAt da 10 = digitAt db 10) as E10.
    { rewrite Ha10, Hb10, <- (cpfSum_take da), <- (cpfSum_take db). by rewrite H10. }
    rewrite <- (firstn_all da), <- (firstn_all db), La, Lb.
    rewrite (take_S_digitAt da 10), (take_S_digitAt db 10) by lia. by rewrite H10, E10.
  - intros base Hbase. cbv zeta.
    set (d1 := cpfCheckDigit (cpfSum base 9 10)).
    set (d2 := cpfCheckDigit (cpfSum (base ++ [d1]) 10 11)).
    intros Hsame. apply cpfDigitsValid_true.
    split; [rewrite length_app; simpl; lia|]. split; [done|].
    assert (∀ x, digitAt (base ++ x) 9 = digitAt x 0) as Hat9.
    { intros x. unfold digitAt. rewrite app_nth2 by lia. by rewrite Hbase. }
    assert (∀ x, digitAt (base ++ x) 10 = digitAt x 1) as Hat10.
    { intros x. unfold digitAt. rewrite app_nth2 by lia. by rewrite Hbase. }
    split.
    + rewrite Hat9. simpl. unfold d1. f_equal.
      rewrite <- (cpfSum_take (base ++ _)), <- Hbase, take_app_length.
      by rewrite <- (take_app_length base []), app_nil_r, cpfSum_take at 1.
    + rewrite Hat10. simpl. unfold d2. f_equal.
      rewrite <- (cpfSum_take (base ++ [d1; d2])), <- (cpfSum_take (base ++ [d1])).
      f_equal. rewrite !take_app_ge by lia. by rewrite Hbase.
Qed.

Lemma validateDocument_unfold v type :
  validateDocument v type =
    match type with
    | cpf => if negb (String.length (onlyDigits v) =? 11)%nat then 0%Z
             else if isValidCPF v then 1%Z else (-1)%Z
    | cnpj => if negb (String.length (onlyDigits v) =? 14)%nat then 0%Z
              else if isValidCNPJ v then 1%Z else (-1)%Z
    end.
Proof.
  unfold validateDocument, isValidCPF, isValidCNPJ.
  rewrite onlyDigits_idem.
  destruct (String.eqb_spec v "") as [->|_]; [by destruct type|done].
Qed.

Lemma checksumIssue_cpf val :
  String.length (onlyDigits val) = 11%nat →
  (checksumIssue val = None ↔ isValidCPF val = true).
Proof.
  intros Hlen. unfold checksumIssue, isValidCPF, cpfDigitsValid.
  rewrite digits_length, Hlen. simpl.
  destruct (allSame _); [done|].
  by destruct (_ && _).
Qed.

Lemma checksumIssue_cnpj val :
  String.length (onlyDigits val) = 14%nat →
  (checksumIssue val = None ↔ isValidCNPJ val = true).
Proof.
  intros Hlen. unfold checksumIssue, isValidCNPJ, cnpjDigitsValid.
  rewrite digits_length, Hlen. simpl.
  destruct (allSame _); [done|].
  destruct (_ =? _)%nat; simpl; [|done].
  by destruct (_ =? _)%nat.
Qed.


Lemma cpf_check_digits_are_determined_witness :
  digits (onlyDigits "529.982.247-25") = digits (onlyDigits "52998224725").
Proof.
  by destruct (cpf_check_digits_are_determined "529.982.247-25" "52998224725"
                 eq_refl eq_refl eq_refl) as [H _].
Defined.

(** X22.  The two check digits of a CNPJ are a function of its first
    twelve digits: two documents that [isValidCNPJ] accepts and that
    agree on their first twelve digits have the same fourteen digits;
    the digits computed are always below ten. *)
Theorem cnpj_check_digits_are_determined (a b : string) :
  isValidCNPJ a = true → isValidCNPJ b = true →
  take 12 (digits (onlyDigits a)) = take 12 (digits (onlyDigits b)) →
  digits (onlyDigits a) = digits (onlyDigits b) ∧
  (∀ sum, (cnpjCheckDigit sum < 10)%nat).
Proof.
  unfold isValidCNPJ. set (da := digits (onlyDigits a)). set (db := digits (onlyDigits b)).
  intros (La & _ & Ha12 & Ha13)%cnpjDigitsValid_true
         (Lb & _ & Hb12 & Hb13)%cnpjDigitsValid_true H12.
  split; [|apply cnpjCheckDigit_lt].
  assert (digitAt da 12 = digitAt db 12) as E12 by by rewrite Ha12, Hb12, H12.
  assert (take 13 da = take 13 db) as H13.
  { rewrite (take_S_digitAt da 12), (take_S_digitAt db 12) by lia. by rewrite H12, E12. }
  assert (digitAt da 13 = digitAt db 13) as E13 by by rewrite Ha13, Hb13, H13.
  rewrite <- (firstn_all da), <- (firstn_all db), La, Lb.
  rewrite (take_S_digitAt da 13), (take_S_digitAt db 13) by lia. by rewrite H13, E13.
Qed.

Lemma cnpj_check_digits_are_determined_witness :
  digits (onlyDigits "11.222.333/0001-81") = digits (onlyDigits "11222333000181").
Proof.
  by destruct (cnpj_check_digits_are_determined "11.222.333/0001-81" "11222333000181"
                 eq_refl eq_refl eq_refl) as [H _].
Defined.

(** X23.  The test for repeated digits is what rejects a CPF of eleven
    equal digits: for each digit, both check digits computed from such
    a number are that digit again, so the checksum alone would accept
    it; [isValidCPF] rejects it. *)
Theorem repeated_digits_pass_the_cpf_checksum (d : nat) :
  (d < 10)%nat →
  cpfCheckDigit (cpfSum (replicate 11 d) 9 10) = d ∧
  cpfCheckDigit (cpfSum (replicate 11 d) 10 11) = d ∧
  allSame (replicate 11 d) = true ∧
  cpfDigitsValid (replicate 11 d) = false.
Proof.
  intros Hd.
  do 10 (destruct d as [|d]; [by vm_compute|]). lia.
Qed.

Lemma repeated_digits_pass_the_cpf_checksum_witness :
  cpfCheckDigit (cpfSum (digits "77777777777") 9 10) = 7%nat ∧
  isValidCPF "777.777.777-77" = false.
Proof.
  destruct (repeated_digits_pass_the_cpf_checksum 7) as (H1 & _ & _ & H2); [lia|].
  split; [exact H1|exact H2].
Defined.

(** X24.  The status shown for a document depends on its digits only,
    not on its punctuation, and is 0 exactly while the number of its
    digits is not the 11 of a CPF or the 14 of a CNPJ (an empty field
    included); with the right number of digits it is 1 when the
    checksum test of the type accepts the document and -1 otherwise. *)
Theorem validateDocument_status (value : string) (type : DocumentType) :
  let required := match type with cpf => 11%nat | cnpj => 14%nat end in
  let accepted := match type with cpf => isValidCPF value | cnpj => isValidCNPJ value end in
  let count := String.length (onlyDigits value) in
  validateDocument (onlyDigits value) type = validateDocument value type ∧
  (validateDocument value type = 0%Z ↔ count ≠ required) ∧
  (validateDocument value type = 1%Z ↔ count = required ∧ accepted = true) ∧
  (validateDocument value type = (-1)%Z ↔ count = required ∧ accepted = false).
Proof.
  cbv zeta.
  pose proof (λ v, validateDocument_unfold v type) as Hv.
  rewrite !Hv. unfold isValidCPF, isValidCNPJ. rewrite !onlyDigits_idem.
  split; [done|].
  destruct type.
  - destruct (Nat.eqb_spec (String.length (onlyDigits value)) 11); simpl.
    + destruct (cpfDigitsValid _); repeat split; try done; try (by intros []).
    + repeat split; try done; try (by intros []).
  - destruct (Nat.eqb_spec (String.length (onlyDigits value)) 14); simpl.
    + destruct (cnpjDigitsValid _); repeat split; try done; try (by intros []).
    + repeat split; try done; try (by intros []).
Qed.

Lemma matches_digit_count pattern :
  Forall (λ cl, match cl with D => True | Lit l => isDigit l = false end) pattern →
  ∀ s, matches pattern s = true →
       String.length (onlyDigits s)
       = length (filter (λ cl, cl = D) pattern).
Proof.
  induction 1 as [|cl pattern Hcl _ IH]; intros [|c s] Hm; try done;
    destruct cl as [|l]; try done; cbn [matches] in Hm;
    apply andb_prop in Hm as [Hc Hm]; cbn [onlyDigits].
  - rewrite Hc, filter_cons_True by done. cbn [String.length length].
    f_equal. by apply IH.
  - apply Ascii.eqb_eq in Hc. subst c.
    rewrite Hcl, filter_cons_False by done. by apply IH.
Qed.

(** X25.  For a document written in one of the two formats that the
    form accepts, the checksum rule of the form schema and the status
    shown beside the field agree: a text in CPF format has eleven
    digits and raises no issue exactly when its status as a CPF is 1,
    and a text in CNPJ format has fourteen digits and raises no issue
    exactly when its status as a CNPJ is 1.  No text is in both
    formats. *)
Theorem schema_agrees_with_document_status (val : string) :
  (matches cpfRegex val = true →
   String.length (onlyDigits val) = 11%nat ∧ matches cnpjRegex val = false ∧
   (checksumIssue val = None ↔ validateDocument val cpf = 1%Z)) ∧
  (matches cnpjRegex val = true →
   String.length (onlyDigits val) = 14%nat ∧ matches cpfRegex val = false ∧
   (checksumIssue val = None ↔ validateDocument val cnpj = 1%Z)).
Proof.
  assert (∀ p, p = cpfRegex ∨ p = cnpjRegex →
               Forall (λ cl, match cl with D => True | Lit l => isDigit l = false end) p)
    as Hlit.
  { intros p [-> | ->]; repeat constructor. }
  split; intros Hm.
  - pose proof (matches_digit_count cpfRegex (Hlit _ (or_introl eq_refl)) val Hm) as Hlen.
    change (length (filter _ cpfRegex)) with 11%nat in Hlen.
    split; [done|]. split.
    + destruct (matches cnpjRegex val) eqn:Hm'; [|done].
      pose proof (matches_digit_count cnpjRegex (Hlit _ (or_intror eq_refl)) val Hm') as H'.
      change (length (filter _ cnpjRegex)) with 14%nat in H'. lia.
    + rewrite (checksumIssue_cpf _ Hlen), validateDocument_unfold, Hlen. simpl.
      by destruct (isValidCPF val).
  - pose proof (matches_digit_count cnpjRegex (Hlit _ (or_intror eq_refl)) val Hm) as Hlen.
    change (length (filter _ cnpjRegex)) with 14%nat in Hlen.
    split; [done|]. split.
    + destruct (matches cpfRegex val) eqn:Hm'; [|done].
      pose proof (matches_digit_count cpfRegex (Hlit _ (or_introl eq_refl)) val Hm') as H'.
      change (length (filter _ cpfRegex)) with 11%nat in H'. lia.
    + rewrite (checksumIssue_cnpj _ Hlen), validateDocument_unfold, Hlen. simpl.
      by destruct (isValidCNPJ val).
Qed.

Lemma schema_agrees_with_document_status_witness :
  checksumIssue "529.982.247-25" = None ∧
  validateDocument "11.222.333/0001-82" cnpj ≠ 1%Z.
Proof.
  destruct (schema_agrees_with_document_status "529.982.247-25") as [Hcpf _].
  destruct (Hcpf eq_refl) as (_ & _ & Hiff).
  destruct (schema_agrees_with_document_status "11.222.333/0001-82") as [_ Hcnpj].
  destruct (Hcnpj eq_refl) as (_ & _ & Hiff').
  split.
  - by apply Hiff.
  - intros H. apply Hiff' in H. by vm_compute in H.
Defined.


(** ** The input masks *)

Lemma isDigit_not_hyphen c : isDigit c = true → Ascii.eqb c "-" = false.
Proof. destruct c as [[] [] [] [] [] [] [] []]; by vm_compute. Qed.

Lemma onlyDigits_length s : (String.length (onlyDigits s) ≤ String.length s)%nat.
Proof.
  induction s as [|c s IH]; simpl; [lia|].
  destruct (isDigit c); simpl; lia.
Qed.

(** A text that [onlyDigits] leaves as it is consists of digits. *)
Lemma onlyDigits_fixed_cons c s :
  onlyDigits (String c s) = String c s → isDigit c = true ∧ onlyDigits s = s.
Proof.
  simpl. destruct (isDigit c); [by intros [= ->]|].
  intros H. pose proof (onlyDigits_length s) as Hlen.
  rewrite H in Hlen. simpl in Hlen. lia.
Qed.

Lemma someDigitsOnly_digits c s :
  isDigit c = true → onlyDigits s = s → someDigitsOnly (String c s) = true.
Proof.
  revert c. induction s as [|d s IH]; intros c Hc Hs; simpl; [done|].
  apply onlyDigits_fixed_cons in Hs as [Hd Hs].
  rewrite Hc. simpl. by apply IH.
Qed.

Lemma isDigit_not_paren c : isDigit c = true → Ascii.eqb c "(" = false.
Proof. destruct c as [[] [] [] [] [] [] [] []]; by vm_compute. Qed.

Lemma onlyDigits_digit c s :
  isDigit c = true → onlyDigits (String c s) = String c (onlyDigits s).
Proof. intros H. simpl. by rewrite H. Qed.

Lemma onlyDigits_other c s :
  isDigit c = false → onlyDigits (String c s) = onlyDigits s.
Proof. intros H. simpl. by rewrite H. Qed.

Lemma wrapDigits_nil k before after : wrapDigits k before after "" = "".
Proof. done. Qed.

Lemma wrapDigits_cons k before after c s :
  wrapDigits k before after (String c s)
  = if startsWithDigits (S k) (String c s)
    then before +:+ takeChars k (String c s) +:+ after +:+ dropChars k (String c s)
    else String c (wrapDigits k before after s).
Proof. done. Qed.

Lemma cutAfterHyphen_nil k : cutAfterHyphen k "" = "".
Proof. done. Qed.

Lemma cutAfterHyphen_cons k c rest :
  cutAfterHyphen k (String c rest)
  = if Ascii.eqb c "-" && startsWithDigits k rest && someDigitsOnly (dropChars k rest)
    then String c (takeChars k rest)
    else String c (cutAfterHyphen k rest).
Proof. done. Qed.

Lemma append_nil_l (s : string) : "" +:+ s = s.
Proof. done. Qed.

Lemma append_cons c (s t : string) : String c s +:+ t = String c (s +:+ t).
Proof. done. Qed.

(** Evaluation of the masks on a text of which the characters are known
    to be digits: one replacement at a time, from the inside, the test
    of each place decided before the next place is looked at. *)
Ltac mask_bool :=
  cbn [startsWithDigits takeChars dropChars andb];
  rewrite ?someDigitsOnly_digits by assumption;
  cbn [someDigitsOnly];
  repeat match goal with
         | H : isDigit ?c = true |- context [isDigit ?c] => rewrite H
         | H : isDigit ?c = true |- context [Ascii.eqb ?c "-"] =>
             rewrite (isDigit_not_hyphen c H)
         | H : isDigit ?c = true |- context [Ascii.eqb ?c "("] =>
             rewrite (isDigit_not_paren c H)
         end;
  change (isDigit ".") with false; change (isDigit "-") with false;
  change (isDigit "/") with false; change (isDigit "(") with false;
  change (isDigit ")") with false; change (isDigit " ") with false;
  change (Ascii.eqb "." "-") with false; change (Ascii.eqb "-" "-") with true;
  change (Ascii.eqb "/" "-") with false; change (Ascii.eqb "(" "-") with false;
  change (Ascii.eqb ")" "-") with false; change (Ascii.eqb " " "-") with false;
  change (Ascii.eqb "." ".") with true; change (Ascii.eqb "/" "/") with true;
  change (Ascii.eqb "(" "(") with true; change (Ascii.eqb ")" ")") with true;
  change (Ascii.eqb " " " ") with true;
  cbn [andb];
  rewrite ?append_nil_l, ?append_cons.

Ltac mask_step :=
  match goal with
  | |- context [wrapDigits ?k ?b ?a EmptyString] => rewrite (wrapDigits_nil k b a)
  | |- context [wrapDigits ?k ?b ?a (String ?c ?s)] =>
      match s with
      | context [wrapDigits _ _ _ _] => fail 1
      | context [onlyDigits _] => fail 1
      | _ => idtac
      end;
      rewrite (wrapDigits_cons k b a c s); mask_bool
  | |- context [cutAfterHyphen ?k EmptyString] => rewrite (cutAfterHyphen_nil k)
  | |- context [cutAfterHyphen ?k (String ?c ?s)] =>
      match s with
      | context [wrapDigits _ _ _ _] => fail 1
      | context [cutAfterHyphen _ _] => fail 1
      | _ => idtac
      end;
      rewrite (cutAfterHyphen_cons k c s); mask_bool
  | |- context [onlyDigits EmptyString] =>
      change (onlyDigits EmptyString) with EmptyString
  | |- context [onlyDigits (String ?c ?s)] =>
      first [ rewrite (onlyDigits_digit c s) by assumption
            | rewrite (onlyDigits_other c s) by reflexivity ]
  | H : onlyDigits ?ds = ?ds |- context [onlyDigits ?ds] => rewrite H
  end.

Ltac mask_eval :=
  cbn [takeChars];
  repeat mask_step;
  cbn [matches cpfRegex cnpjRegex phoneRegex String.length Nat.leb];
  mask_bool.

Ltac next_digit ds H :=
  let c := fresh "c" in
  let Hc := fresh "Hc" in
  destruct ds as [|c ds];
  [| apply onlyDigits_fixed_cons in H as [Hc H]].

Ltac mask_case ds H := next_digit ds H; [by mask_eval|].

Lemma cpf_mask_of_digits ds :
  onlyDigits ds = ds →
  onlyDigits (formatDocument ds cpf) = takeChars 11 ds
  ∧ matches cpfRegex (formatDocument ds cpf) = (11 <=? String.length ds)%nat
  ∧ formatDocument (takeChars 11 ds) cpf = formatDocument ds cpf.
Proof.
  intros H. unfold formatDocument. rewrite H.
  do 12 mask_case ds H. by mask_eval.
Qed.

Lemma cnpj_mask_of_digits ds :
  onlyDigits ds = ds →
  onlyDigits (formatDocument ds cnpj) = takeChars 14 ds
  ∧ matches cnpjRegex (formatDocument ds cnpj) = (14 <=? String.length ds)%nat
  ∧ formatDocument (takeChars 14 ds) cnpj = formatDocument ds cnpj.
Proof.
  intros H. unfold formatDocument. rewrite H.
  do 15 mask_case ds H. by mask_eval.
Qed.

Lemma phone_mask_of_digits ds :
  onlyDigits ds = ds →
  onlyDigits (formatPhone ds) = takeChars 11 ds
  ∧ matches phoneRegex (formatPhone ds) = (11 <=? String.length ds)%nat
  ∧ formatPhone (takeChars 11 ds) = formatPhone ds.
Proof.
  intros H. unfold formatPhone. rewrite H.
  do 12 mask_case ds H. by mask_eval.
Qed.

Lemma formatDocument_of_digits value type :
  formatDocument (onlyDigits value) type = formatDocument value type.
Proof. unfold formatDocument. by rewrite onlyDigits_idem. Qed.

Lemma formatPhone_of_digits value :
  formatPhone (onlyDigits value) = formatPhone value.
Proof. unfold formatPhone. by rewrite onlyDigits_idem. Qed.

(** X27. The document mask [formatDocument] keeps the digits of what was
    typed, in the order typed, up to the 11th for a CPF and the 14th for a
    CNPJ, and nothing else of it; its result has the form that the
    document field of the schema asks for ([NNN.NNN.NNN-NN], respectively
    [NN.NNN.NNN/NNNN-NN]) exactly when that many digits were typed; and
    masking a masked text again changes nothing. *)
Theorem document_mask_keeps_digits_and_fits_schema (value : string) :
  (onlyDigits (formatDocument value cpf) = takeChars 11 (onlyDigits value)
   ∧ matches cpfRegex (formatDocument value cpf)
     = (11 <=? String.length (onlyDigits value))%nat)
  ∧ (onlyDigits (formatDocument value cnpj) = takeChars 14 (onlyDigits value)
     ∧ matches cnpjRegex (formatDocument value cnpj)
       = (14 <=? String.length (onlyDigits value))%nat)
  ∧ ∀ type, formatDocument (formatDocument value type) type
            = formatDocument value type.
Proof.
  destruct (cpf_mask_of_digits (onlyDigits value) (onlyDigits_idem value))
    as (Hp1 & Hp2 & Hp3).
  destruct (cnpj_mask_of_digits (onlyDigits value) (onlyDigits_idem value))
    as (Hn1 & Hn2 & Hn3).
  rewrite !formatDocument_of_digits in *.
  repeat split; try done.
  intros [|].
  - rewrite <- (formatDocument_of_digits (formatDocument value cpf)).
    by rewrite Hp1.
  - rewrite <- (formatDocument_of_digits (formatDocument value cnpj)).
    by rewrite Hn1.
Qed.

(** X28. The telephone mask [formatPhone] keeps the first 11 digits typed,
    in the order typed, and nothing else; its result has the form
    [(NN) NNNNN-NNNN] that the schema asks of the telephone exactly when
    at least 11 digits were typed; and masking a masked telephone again
    changes nothing. *)
Theorem phone_mask_keeps_digits_and_fits_schema (value : string) :
  onlyDigits (formatPhone value) = takeChars 11 (onlyDigits value)
  ∧ matches phoneRegex (formatPhone value)
    = (11 <=? String.length (onlyDigits value))%nat
  ∧ formatPhone (formatPhone value) = formatPhone value.
Proof.
  destruct (phone_mask_of_digits (onlyDigits value) (onlyDigits_idem value))
    as (H1 & H2 & H3).
  rewrite !formatPhone_of_digits in *.
  repeat split; try done.
  rewrite <- (formatPhone_of_digits (formatPhone value)).
  by rewrite H1.
Qed.

End CustomerDialogFacts.
